(** * check-pqc: the TLS security-state report of [check-pqc.js]

    A shallow embedding of the decision logic of [check-pqc.js]: the timestamp
    formatter, the [Security.visibleSecurityStateChanged] handler of
    [checkTLS] and the argument handling of [main].

    JavaScript strings are sequences of UTF-16 code units, numbers that the
    script receives as certificate timestamps are modelled as integers, and an
    uncaught exception is an explicit [Throw] completion.

    The repository also holds an earlier copy of the script.  Its
    [formatTimestamp], its classification of a record and its [main] are
    the same; its report has no "Server" line. *)

From Stdlib Require Import ZArith NArith List Bool Lia String Ascii.
Import ListNotations.

(* ================================================================== *)
(** ** JavaScript values used by the script *)
(* ================================================================== *)

Module JS.

(** A string value: its UTF-16 code units. *)
Definition jsstring := list N.

(** An ASCII literal of the source, as code units. *)
Definition lit (s : string) : jsstring :=
  map N_of_ascii (list_ascii_of_string s).

(** Exceptions that the modelled code can raise. *)
Inductive Exception :=
| TypeError   (* property access or method call on [undefined] *)
| RangeError  (* [toISOString] on an invalid date *)
| SystemError (* a failing [fs] call *).

(** Completion of an evaluation: a value or an uncaught exception. *)
Inductive Completion (A : Type) : Type :=
| Normal (a : A)
| Throw (e : Exception).
Arguments Normal {A} a.
Arguments Throw {A} e.

Definition bind {A B} (c : Completion A) (k : A -> Completion B) : Completion B :=
  match c with
  | Normal a => k a
  | Throw e => Throw e
  end.

(** The numbers the script can meet in a timestamp field, with the two
    absent values.  [JInt z] is the number whose value is the integer [z]. *)
Inductive jsnum :=
| JUndefined
| JNull
| JNaN
| JInt (z : Z).

(** [ToBoolean] on these values. *)
Definition truthy_num (v : jsnum) : bool :=
  match v with
  | JInt z => negb (z =? 0)%Z
  | _ => false
  end.

(** [ToBoolean] on an optional string: [undefined] and [""] are falsy. *)
Definition truthy_str (v : option jsstring) : bool :=
  match v with
  | Some (_ :: _) => true
  | _ => false
  end.

(** [v || d] for an optional string [v] and a string [d]. *)
Definition or_default (v : option jsstring) (d : jsstring) : jsstring :=
  match v with
  | Some (c :: s) => c :: s
  | _ => d
  end.

(** *** String.prototype methods *)

Fixpoint isPrefix (p s : jsstring) : bool :=
  match p, s with
  | [], _ => true
  | _ :: _, [] => false
  | a :: p', b :: s' => (a =? b)%N && isPrefix p' s'
  end.

(** [s.startsWith(p)] *)
Definition startsWith (s p : jsstring) : bool := isPrefix p s.

(** [s.includes(p)] *)
Fixpoint includes (s p : jsstring) : bool :=
  isPrefix p s ||
  match s with
  | [] => false
  | _ :: s' => includes s' p
  end.

(** [s.replace(pat, rep)] for a string pattern: the first occurrence of
    [pat] is replaced.  [rep] is taken literally, which is what JavaScript
    does for a replacement without [$]. *)
Fixpoint replace (s pat rep : jsstring) : jsstring :=
  if isPrefix pat s then rep ++ skipn (List.length pat) s
  else match s with
       | [] => []
       | c :: s' => c :: replace s' pat rep
       end.

(** [s.toUpperCase()] on the ASCII letters; code units outside [a-z] are
    kept, which is exact for ASCII strings such as the security states of
    the debugging protocol. *)
Definition upper_unit (c : N) : N :=
  if ((97 <=? c) && (c <=? 122))%N then (c - 32)%N else c.

Definition toUpperCase (s : jsstring) : jsstring := map upper_unit s.

(** WhiteSpace and LineTerminator code units, the ones [trim] strips. *)
Definition isWhiteSpace (c : N) : bool :=
  ((9 <=? c) && (c <=? 13) || (c =? 32) || (c =? 160) || (c =? 5760)
   || (8192 <=? c) && (c <=? 8202) || (c =? 8232) || (c =? 8233)
   || (c =? 8239) || (c =? 8287) || (c =? 12288) || (c =? 65279))%N.

Fixpoint trimStart (s : jsstring) : jsstring :=
  match s with
  | [] => []
  | c :: s' => if isWhiteSpace c then trimStart s' else s
  end.

Definition trimEnd (s : jsstring) : jsstring := rev (trimStart (rev s)).

(** [s.trim()] *)
Definition trim (s : jsstring) : jsstring := trimEnd (trimStart s).

(** [a !== b] on strings. *)
Fixpoint str_eqb (a b : jsstring) : bool :=
  match a, b with
  | [], [] => true
  | x :: a', y :: b' => (x =? y)%N && str_eqb a' b'
  | _, _ => false
  end.

(** [s.split(/\r?\n/)]: the pieces between the matches of the regular
    expression, scanning from the left.  At a line feed (10) the match is
    the line feed; at a carriage return (13) followed by a line feed it is
    the two of them; any other code unit belongs to the current piece.
    [cur] holds the code units of the current piece in reverse. *)
Fixpoint split_lines_from (cur : jsstring) (s : jsstring) : list jsstring :=
  match s with
  | [] => [rev cur]
  | c :: s' =>
      if (c =? 10)%N then rev cur :: split_lines_from [] s'
      else
        match s' with
        | d :: s'' =>
            if ((c =? 13) && (d =? 10))%N then rev cur :: split_lines_from [] s''
            else split_lines_from (c :: cur) s'
        | [] => split_lines_from (c :: cur) s'
        end
  end.

Definition split_lines (s : jsstring) : list jsstring := split_lines_from [] s.

End JS.

(* ================================================================== *)
(** ** Date: time values and [toISOString], after ECMA-262 (21.4.1) *)
(* ================================================================== *)

Module JSDate.
Import JS.
Local Open Scope Z_scope.

Definition msPerSecond : Z := 1000.
Definition msPerMinute : Z := 60000.
Definition msPerHour : Z := 3600000.
Definition msPerDay : Z := 86400000.

(** The largest magnitude of a time value: 8.64e15 ms. *)
Definition maxTime : Z := 8640000000000000.

Definition Day (t : Z) : Z := t / msPerDay.
Definition TimeWithinDay (t : Z) : Z := t mod msPerDay.

Definition DaysInYear (y : Z) : Z :=
  if negb (y mod 4 =? 0) then 365
  else if negb (y mod 100 =? 0) then 366
  else if negb (y mod 400 =? 0) then 365
  else 366.

Definition DayFromYear (y : Z) : Z :=
  365 * (y - 1970) + (y - 1969) / 4 - (y - 1901) / 100 + (y - 1601) / 400.

Definition TimeFromYear (y : Z) : Z := msPerDay * DayFromYear y.

(** The year of a day number: the largest [y] with [DayFromYear y <= d].
    An estimate from the mean length of a Gregorian year is at most one
    year off. *)
Definition YearFromDay (d : Z) : Z :=
  let y := 1970 + (400 * d) / 146097 in
  if d <? DayFromYear y then y - 1
  else if DayFromYear (y + 1) <=? d then y + 1
  else y.

Definition YearFromTime (t : Z) : Z := YearFromDay (Day t).

Definition InLeapYear (t : Z) : Z :=
  if DaysInYear (YearFromTime t) =? 365 then 0 else 1.

Definition DayWithinYear (t : Z) : Z := Day t - DayFromYear (YearFromTime t).

(** Month number, 0 for January to 11 for December. *)
Definition MonthFromTime (t : Z) : Z :=
  let d := DayWithinYear t in
  let l := InLeapYear t in
  if d <? 31 then 0
  else if d <? 59 + l then 1
  else if d <? 90 + l then 2
  else if d <? 120 + l then 3
  else if d <? 151 + l then 4
  else if d <? 181 + l then 5
  else if d <? 212 + l then 6
  else if d <? 243 + l then 7
  else if d <? 273 + l then 8
  else if d <? 304 + l then 9
  else if d <? 334 + l then 10
  else 11.

(** Day of the month, from 1. *)
Definition DateFromTime (t : Z) : Z :=
  let d := DayWithinYear t in
  let l := InLeapYear t in
  match MonthFromTime t with
  | 0 => d + 1
  | 1 => d - 30
  | 2 => d - 58 - l
  | 3 => d - 89 - l
  | 4 => d - 119 - l
  | 5 => d - 150 - l
  | 6 => d - 180 - l
  | 7 => d - 211 - l
  | 8 => d - 242 - l
  | 9 => d - 272 - l
  | 10 => d - 303 - l
  | _ => d - 333 - l
  end.

Definition HourFromTime (t : Z) : Z := (t / msPerHour) mod 24.
Definition MinFromTime (t : Z) : Z := (t / msPerMinute) mod 60.
Definition SecFromTime (t : Z) : Z := (t / msPerSecond) mod 60.
Definition msFromTime (t : Z) : Z := t mod msPerSecond.

(** The inverse direction, used to state what a date string denotes:
    [MakeTime], [MakeDay] on a month of the year itself, and [MakeDate]. *)
Definition MakeTime (h m s ms : Z) : Z :=
  h * msPerHour + m * msPerMinute + s * msPerSecond + ms.

(** Days before month [m] in a year with [l] leap days. *)
Definition DaysBeforeMonth (l m : Z) : Z :=
  match m with
  | 0 => 0
  | 1 => 31
  | 2 => 59 + l
  | 3 => 90 + l
  | 4 => 120 + l
  | 5 => 151 + l
  | 6 => 181 + l
  | 7 => 212 + l
  | 8 => 243 + l
  | 9 => 273 + l
  | 10 => 304 + l
  | _ => 334 + l
  end.

Definition DaysInMonth (y m : Z) : Z :=
  let l := DaysInYear y - 365 in
  if m =? 11 then 31 else DaysBeforeMonth l (m + 1) - DaysBeforeMonth l m.

Definition MakeDay (y m dt : Z) : Z :=
  DayFromYear y + DaysBeforeMonth (DaysInYear y - 365) m + dt - 1.

Definition MakeDate (day time : Z) : Z := day * msPerDay + time.

(** [TimeClip]: a time value, or [None] for NaN. *)
Definition TimeClip (time : jsnum) : option Z :=
  match time with
  | JInt t => if maxTime <? Z.abs t then None else Some t
  | _ => None
  end.

(** [timestamp * k] for an integer constant [k].  On [JInt] the product
    is the exact one; a double product is exact below 2^53 and beyond that
    stays above [maxTime], where [TimeClip] gives NaN either way. *)
Definition times (v : jsnum) (k : Z) : jsnum :=
  match v with
  | JInt z => JInt (z * k)
  | JNull => JInt 0
  | _ => JNaN
  end.

(** [new Date(value)] for a number: the date's time value. *)
Definition newDate (value : jsnum) : option Z := TimeClip value.

(** [w] decimal digits of a non-negative number, zero padded. *)
Fixpoint digits (w : nat) (n : Z) : jsstring :=
  match w with
  | O => []
  | S w' => digits w' (n / 10) ++ [(48 + Z.to_N (n mod 10))%N]
  end.

(** The year of the date-time format: four digits, or a sign and six digits
    outside 0..9999. *)
Definition yearString (y : Z) : jsstring :=
  if (0 <=? y) && (y <=? 9999) then digits 4 y
  else (if y <? 0 then lit "-" else lit "+") ++ digits 6 (Z.abs y).

(** [YYYY-MM-DDTHH:mm:ss.sssZ] from the fields; [mo] counts from 0. *)
Definition isoFormat (y mo d h mi s ms : Z) : jsstring :=
  yearString y ++ lit "-" ++ digits 2 (mo + 1) ++ lit "-" ++ digits 2 d
  ++ lit "T" ++ digits 2 h ++ lit ":" ++ digits 2 mi ++ lit ":" ++ digits 2 s
  ++ lit "." ++ digits 3 ms ++ lit "Z".

(** [date.toISOString()]: a [RangeError] on an invalid date. *)
Definition toISOString (tv : option Z) : Completion jsstring :=
  match tv with
  | None => Throw RangeError
  | Some t =>
      Normal (isoFormat (YearFromTime t) (MonthFromTime t) (DateFromTime t)
                (HourFromTime t) (MinFromTime t) (SecFromTime t) (msFromTime t))
  end.

End JSDate.

(* ================================================================== *)
(** ** The script: [formatTimestamp], the handlers of [checkTLS], [main] *)
(* ================================================================== *)

(** The parts of the debugging protocol's [Security.visibleSecurityStateChanged]
    event that the script reads.  An absent property is [None] (or
    [JUndefined] for a number). *)
Module CDP.
Import JS.

Record CertificateSecurityState := {
  protocol : option jsstring;
  keyExchange : option jsstring;
  keyExchangeGroup : option jsstring;
  cipher : option jsstring;
  subjectName : option jsstring;
  issuer : option jsstring;
  validFrom : jsnum;
  validTo : jsnum
}.

Record VisibleSecurityState := {
  securityState : option jsstring;
  certificateSecurityState : option CertificateSecurityState
}.

(** The object literal [{}]: every property is absent. *)
Definition emptyObject : CertificateSecurityState :=
  {| protocol := None; keyExchange := None; keyExchangeGroup := None;
     cipher := None; subjectName := None; issuer := None;
     validFrom := JUndefined; validTo := JUndefined |}.

End CDP.

Module CheckPQC.
Import JS.

(** The non-ASCII characters of the report, as UTF-16 code units. *)
Definition magnifier : jsstring := [55357; 56589]%N.      (* U+1F50D *)
Definition lock : jsstring := [55357; 56594]%N.           (* U+1F512 *)
Definition desktop : jsstring := [55357; 56741; 65039]%N. (* U+1F5A5 U+FE0F *)
Definition globe : jsstring := [55356; 57104]%N.          (* U+1F310 *)
Definition key : jsstring := [55357; 56593]%N.            (* U+1F511 *)
Definition arrows : jsstring := [55357; 56580]%N.         (* U+1F504 *)
Definition lockKey : jsstring := [55357; 56592]%N.        (* U+1F510 *)
Definition scroll : jsstring := [55357; 56540]%N.         (* U+1F4DC *)
Definition building : jsstring := [55356; 57307; 65039]%N. (* U+1F3DB U+FE0F *)
Definition calendar : jsstring := [55357; 56517]%N.       (* U+1F4C5 *)
Definition checkMark : jsstring := [9989]%N.              (* U+2705 *)
Definition popper : jsstring := [55356; 57225]%N.         (* U+1F389 *)
Definition crossMark : jsstring := [10060]%N.             (* U+274C *)

Definition nl : jsstring := [10]%N.

(** [formatTimestamp] (check-pqc.js, lines 30-34). *)
Definition formatTimestamp (timestamp : jsnum) : Completion jsstring :=
  if negb (truthy_num timestamp) then Normal (lit "N/A")
  else
    let date := JSDate.newDate (JSDate.times timestamp 1000) in
    JSDate.toISOString date.

(** The constants the handler computes from an event (lines 80-98). *)
Record Classification := {
  protocol : jsstring;
  tlsVersion : jsstring;
  isQUIC : bool;
  keyExchange : jsstring;
  keyExchangeGroup : jsstring;
  cipher : jsstring;
  subjectName : jsstring;
  issuer : jsstring;
  validFrom : jsstring;
  validTo : jsstring;
  pqcDetected : bool
}.

Definition classify (securityState : CDP.VisibleSecurityState)
  : Completion Classification :=
  let certState :=
    match CDP.certificateSecurityState securityState with
    | Some o => o
    | None => CDP.emptyObject
    end in
  let protocol := or_default (CDP.protocol certState) (lit "Unknown") in
  let tlsVersion :=
    if startsWith protocol (lit "TLS")
    then replace protocol (lit "TLS ") (lit "TLS ")
    else protocol in
  let isQUIC := includes protocol (lit "QUIC") in
  let keyExchange :=
    or_default (CDP.keyExchange certState)
      (if isQUIC then lit "Handled by QUIC" else lit "N/A") in
  let keyExchangeGroup := or_default (CDP.keyExchangeGroup certState) (lit "N/A") in
  let cipher := or_default (CDP.cipher certState) (lit "N/A") in
  let subjectName := or_default (CDP.subjectName certState) (lit "N/A") in
  let issuer := or_default (CDP.issuer certState) (lit "N/A") in
  bind (formatTimestamp (CDP.validFrom certState)) (fun validFrom =>
  bind (formatTimestamp (CDP.validTo certState)) (fun validTo =>
  let pqcDetected := includes keyExchangeGroup (lit "MLKEM") in
  Normal {| protocol := protocol; tlsVersion := tlsVersion; isQUIC := isQUIC;
            keyExchange := keyExchange; keyExchangeGroup := keyExchangeGroup;
            cipher := cipher; subjectName := subjectName; issuer := issuer;
            validFrom := validFrom; validTo := validTo;
            pqcDetected := pqcDetected |})).

(** The text shown after "Transport Protocol:" (line 104). *)
Definition transportLabel (c : Classification) : jsstring :=
  if isQUIC c then lit "QUIC (Uses TLS 1.3 Encryption)" else tlsVersion c.

(** *** The state the handlers of one [checkTLS] call share *)

(** [result] and [serverHeader] are the [let] variables of [checkTLS] that
    the two handlers close over; [console] and [logFile] collect what
    [console.log] and [logStream.write] were given, oldest first. *)
Record PageState := {
  result : jsstring;
  serverHeader : jsstring;
  console : list jsstring;
  logFile : list jsstring
}.

(** A handler: a state transformer that may end in an exception; the state
    keeps the assignments made before the exception. *)
Definition M (A : Type) : Type := PageState -> Completion A * PageState.

Definition ret {A} (a : A) : M A := fun st => (Normal a, st).

Definition mbind {A B} (m : M A) (k : A -> M B) : M B :=
  fun st =>
    match m st with
    | (Normal a, st') => k a st'
    | (Throw e, st') => (Throw e, st')
    end.

Definition liftC {A} (c : Completion A) : M A := fun st => (c, st).

Declare Scope handler_scope.
Delimit Scope handler_scope with handler.
Notation "x <- m ;; k" := (mbind m (fun x => k))
  (at level 61, m at next level, right associativity) : handler_scope.
Notation "m ;; k" := (mbind m (fun _ => k))
  (at level 61, right associativity) : handler_scope.
Local Open Scope handler_scope.

Definition getResult : M jsstring := fun st => (Normal (result st), st).
Definition getServerHeader : M jsstring := fun st => (Normal (serverHeader st), st).

(** [result += s] *)
Definition appendResult (s : jsstring) : M unit :=
  fun st => (Normal tt,
             {| result := result st ++ s; serverHeader := serverHeader st;
                console := console st; logFile := logFile st |}).

(** [serverHeader = s] *)
Definition setServerHeader (s : jsstring) : M unit :=
  fun st => (Normal tt,
             {| result := result st; serverHeader := s;
                console := console st; logFile := logFile st |}).

Definition consoleLog (s : jsstring) : M unit :=
  fun st => (Normal tt,
             {| result := result st; serverHeader := serverHeader st;
                console := console st ++ [s]; logFile := logFile st |}).

Definition logStreamWrite (s : jsstring) : M unit :=
  fun st => (Normal tt,
             {| result := result st; serverHeader := serverHeader st;
                console := console st; logFile := logFile st ++ [s] |}).

(** [x.toUpperCase()] where [x] may be [undefined]. *)
Definition callToUpperCase (x : option jsstring) : Completion jsstring :=
  match x with
  | Some s => Normal (toUpperCase s)
  | None => Throw TypeError
  end.

Definition separator : jsstring := lit "----------------------------------------" ++ nl.

(** The [Security.visibleSecurityStateChanged] handler (lines 79-120). *)
Definition onVisibleSecurityStateChanged (securityState : CDP.VisibleSecurityState)
  : M unit :=
  c <- liftC (classify securityState) ;;
  appendResult separator ;;
  state <- liftC (callToUpperCase (CDP.securityState securityState)) ;;
  appendResult (lock ++ lit " Security State: " ++ state ++ nl) ;;
  server <- getServerHeader ;;
  appendResult (desktop ++ lit " Server: " ++ server ++ nl) ;;
  appendResult (globe ++ lit " Transport Protocol: " ++ transportLabel c ++ nl) ;;
  appendResult (key ++ lit " Key Exchange: " ++ keyExchange c ++ nl) ;;
  appendResult (arrows ++ lit " Key Exchange Group: " ++ keyExchangeGroup c ++ nl) ;;
  appendResult (lockKey ++ lit " Cipher Suite: " ++ cipher c ++ nl) ;;
  appendResult (scroll ++ lit " Certificate Subject: " ++ subjectName c ++ nl) ;;
  appendResult (building ++ lit " Issuer: " ++ issuer c ++ nl) ;;
  appendResult (calendar ++ lit " Valid From: " ++ validFrom c ++ nl) ;;
  appendResult (calendar ++ lit " Valid To: " ++ validTo c ++ nl) ;;
  appendResult separator ;;
  appendResult
    (if pqcDetected c
     then checkMark ++ lit " This site is using Post-Quantum Encryption (PQC)! "
          ++ popper ++ nl
     else crossMark ++ lit " This site is NOT using Post-Quantum Encryption." ++ nl) ;;
  r <- getResult ;;
  consoleLog r ;;
  r' <- getResult ;;
  logStreamWrite (r' ++ nl).

(** The [response] handler (lines 123-129); [server] is [headers['server']]. *)
Definition onResponse (server : option jsstring) : M unit :=
  match server with
  | Some s => if truthy_str (Some s) then setServerHeader s else ret tt
  | None => ret tt
  end.

(** The state of a [checkTLS] call when the handlers are installed
    (lines 56 and 76). *)
Definition initialState (url : jsstring) : PageState :=
  {| result := nl ++ magnifier ++ lit " Checking: " ++ url ++ nl;
     serverHeader := lit "N/A";
     console := [];
     logFile := [] |}.

(** What a page delivers to the two handlers. *)
Inductive PageEvent :=
| SecurityStateChanged (e : CDP.VisibleSecurityState)
| Response (server : option jsstring).

Definition dispatch (ev : PageEvent) : M unit :=
  match ev with
  | SecurityStateChanged e => onVisibleSecurityStateChanged e
  | Response server => onResponse server
  end.

(** The events of one page in the order they arrive, up to the first
    exception that leaves a handler. *)
Fixpoint run (evs : list PageEvent) : M unit :=
  match evs with
  | [] => ret tt
  | ev :: evs' => dispatch ev ;; run evs'
  end.

(** *** [main]: the list of URLs (lines 156-172) *)

Inductive FsEntry :=
| Missing
| File (content : jsstring)
| Directory.

Definition FileSystem := jsstring -> FsEntry.

Definition existsSync (fs : FileSystem) (path : jsstring) : bool :=
  match fs path with
  | Missing => false
  | _ => true
  end.

(** [fs.readFileSync(path, 'utf-8')]: the decoded content of a file. *)
Definition readFileSync (fs : FileSystem) (path : jsstring) : Completion jsstring :=
  match fs path with
  | File content => Normal content
  | _ => Throw SystemError
  end.

Definition usage : jsstring := lit "Usage: node check-pqc.js <URL> or <file-with-URLs>".

(** How [main] goes on after it has settled the URLs. *)
Inductive Outcome :=
| UsageExit (stderr : jsstring) (exitCode : Z)
| CheckSites (urls : list jsstring).

(** The filter callback [line => line.trim() !== '']. *)
Definition nonBlank (line : jsstring) : bool := negb (str_eqb (trim line) []).

(** [urls.push(...items)] (line 166).  The spread hands every item to
    [push] as an argument of one call, and a call with more arguments than
    the engine can take raises a [RangeError].  [maxArguments] is the
    largest number of arguments that the call can take; the language leaves
    it to the engine. *)
Definition pushSpread (maxArguments : nat) (urls items : list jsstring)
  : Completion (list jsstring) :=
  if (List.length items <=? maxArguments)%nat then Normal (urls ++ items)
  else Throw RangeError.

(** [args] is [process.argv.slice(2)]. *)
Definition resolveUrls (maxArguments : nat) (args : list jsstring) (fs : FileSystem)
  : Completion (list jsstring) :=
  let urls := args in
  if (List.length urls =? 1)%nat && existsSync fs (nth 0 urls [])
  then
    bind (readFileSync fs (nth 0 urls [])) (fun fileContent =>
    let urls := [] in
    pushSpread maxArguments urls (filter nonBlank (split_lines fileContent)))
  else Normal urls.

Definition main (maxArguments : nat) (args : list jsstring) (fs : FileSystem)
  : Completion Outcome :=
  bind (resolveUrls maxArguments args fs) (fun urls =>
  if (List.length urls =? 0)%nat then Normal (UsageExit usage 1)
  else Normal (CheckSites urls)).

End CheckPQC.

(* ================================================================== *)
(** ** Notions the statements use *)
(* ================================================================== *)

Module Notions.
Import JS.

(** [p] occurs in [s] as a contiguous run of code units. *)
Definition substring (p s : jsstring) : Prop :=
  exists pre post, s = pre ++ p ++ post.

(** The certificate state a record carries, [{}] when it carries none. *)
Definition certStateOf (e : CDP.VisibleSecurityState) : CDP.CertificateSecurityState :=
  match CDP.certificateSecurityState e with
  | Some o => o
  | None => CDP.emptyObject
  end.


(** Calendar fields in range: month 0..11, day of that month, time of day. *)
Definition validFields (y mo d h mi s ms : Z) : Prop :=
  (0 <= mo <= 11 /\ 1 <= d <= JSDate.DaysInMonth y mo
   /\ 0 <= h < 24 /\ 0 <= mi < 60 /\ 0 <= s < 60 /\ 0 <= ms < 1000)%Z.

(** The time value, in milliseconds, that the fields stand for. *)
Definition timeOfFields (y mo d h mi s ms : Z) : Z :=
  JSDate.MakeDate (JSDate.MakeDay y mo d) (JSDate.MakeTime h mi s ms).

(** [str] is the UTC date-time string of the whole second [t] (seconds
    since the epoch), in year [y]: the format of in-range fields that stand
    for [t], with a zero millisecond part. *)
Definition isoOfSeconds (t y : Z) (str : jsstring) : Prop :=
  exists mo d h mi s,
    validFields y mo d h mi s 0
    /\ timeOfFields y mo d h mi s 0 = (t * 1000)%Z
    /\ str = JSDate.isoFormat y mo d h mi s 0.

(** The report, read as lines in the order the specification lists them. *)
Definition linesText (ls : list jsstring) : jsstring :=
  List.concat (map (fun l => l ++ CheckPQC.nl) ls).

Definition headerLine (url : jsstring) : jsstring :=
  CheckPQC.magnifier ++ lit " Checking: " ++ url.

Definition verdictLine (pqc : bool) : jsstring :=
  if pqc
  then CheckPQC.checkMark ++ lit " This site is using Post-Quantum Encryption (PQC)! "
       ++ CheckPQC.popper
  else CheckPQC.crossMark ++ lit " This site is NOT using Post-Quantum Encryption.".

Definition separatorLine : jsstring := lit "----------------------------------------".

(** The thirteen lines of one notification: [state] is the upper-cased
    overall state, [server] the server header value. *)
Definition blockLines (state server : jsstring) (c : CheckPQC.Classification)
  : list jsstring :=
  [ separatorLine;
    CheckPQC.lock ++ lit " Security State: " ++ state;
    CheckPQC.desktop ++ lit " Server: " ++ server;
    CheckPQC.globe ++ lit " Transport Protocol: " ++ CheckPQC.transportLabel c;
    CheckPQC.key ++ lit " Key Exchange: " ++ CheckPQC.keyExchange c;
    CheckPQC.arrows ++ lit " Key Exchange Group: " ++ CheckPQC.keyExchangeGroup c;
    CheckPQC.lockKey ++ lit " Cipher Suite: " ++ CheckPQC.cipher c;
    CheckPQC.scroll ++ lit " Certificate Subject: " ++ CheckPQC.subjectName c;
    CheckPQC.building ++ lit " Issuer: " ++ CheckPQC.issuer c;
    CheckPQC.calendar ++ lit " Valid From: " ++ CheckPQC.validFrom c;
    CheckPQC.calendar ++ lit " Valid To: " ++ CheckPQC.validTo c;
    separatorLine;
    verdictLine (CheckPQC.pqcDetected c) ].

Definition reportBlock (state server : jsstring) (c : CheckPQC.Classification)
  : jsstring :=
  linesText (blockLines state server c).

(** The report of a single notification: an empty line, the header line
    and the thirteen lines of the notification. *)
Definition reportText (url state server : jsstring) (c : CheckPQC.Classification)
  : jsstring :=
  CheckPQC.nl ++ linesText (headerLine url :: blockLines state server c).

(** The texts emitted one after the other when every text is the previous
    one extended by the next block; [pre] is what precedes the first. *)
Fixpoint accumulated (pre : jsstring) (blocks : list jsstring) : list jsstring :=
  match blocks with
  | [] => []
  | b :: bs => (pre ++ b) :: accumulated (pre ++ b) bs
  end.

(** A page's state once the handlers are installed and the responses seen
    so far carried the header [server] (or none). *)
Definition stateWithServer (url : jsstring) (server : option jsstring)
  : CheckPQC.PageState :=
  snd (CheckPQC.onResponse server (CheckPQC.initialState url)).

(** [ls] are the lines of [s]: a line holds no line feed, and it is
    followed by the end of [s], by a line feed (the line then does not end
    in a carriage return, which would belong to the terminator) or by a
    carriage return and a line feed. *)
Inductive Lines : jsstring -> list jsstring -> Prop :=
| Lines_last (l : jsstring) :
    ~ In 10%N l -> Lines l [l]
| Lines_lf (l rest : jsstring) (ls : list jsstring) :
    ~ In 10%N l -> (forall l', l <> l' ++ [13%N]) -> Lines rest ls ->
    Lines (l ++ [10%N] ++ rest) (l :: ls)
| Lines_crlf (l rest : jsstring) (ls : list jsstring) :
    ~ In 10%N l -> Lines rest ls ->
    Lines (l ++ [13%N; 10%N] ++ rest) (l :: ls).

(** The block a notification adds when the server header is [server];
    [None] when the handler raises instead. *)
Definition notificationBlock (server : jsstring) (e : CDP.VisibleSecurityState)
  : option jsstring :=
  match CheckPQC.classify e, CDP.securityState e with
  | Normal c, Some s => Some (reportBlock (toUpperCase s) server c)
  | _, _ => None
  end.

(** The range of seconds whose millisecond value is a time value. *)
Definition maxSeconds : Z := 8640000000000.

(** A timestamp field that [toISOString] can print: absent, or a whole
    number of seconds within that range. *)
Definition timestampInRange (v : jsnum) : Prop :=
  match v with
  | JInt z => (Z.abs z <= maxSeconds)%Z
  | _ => True
  end.

End Notions.

(** The record of the end-to-end scenario, and further sample inputs. *)
Module Samples.
Import JS CheckPQC.

Definition sampleCert : CDP.CertificateSecurityState :=
  {| CDP.protocol := Some (lit "TLS 1.3");
     CDP.keyExchange := None;
     CDP.keyExchangeGroup := Some (lit "X25519_MLKEM768");
     CDP.cipher := Some (lit "TLS_AES_128_GCM_SHA256");
     CDP.subjectName := Some (lit "example.com");
     CDP.issuer := Some (lit "Test CA");
     CDP.validFrom := JInt 1704067200;
     CDP.validTo := JInt 1735689599 |}.

Definition sampleRecord : CDP.VisibleSecurityState :=
  {| CDP.securityState := Some (lit "secure");
     CDP.certificateSecurityState := Some sampleCert |}.

Definition sampleClassification : Classification :=
  {| protocol := lit "TLS 1.3"; tlsVersion := lit "TLS 1.3"; isQUIC := false;
     keyExchange := lit "N/A"; keyExchangeGroup := lit "X25519_MLKEM768";
     cipher := lit "TLS_AES_128_GCM_SHA256"; subjectName := lit "example.com";
     issuer := lit "Test CA";
     validFrom := lit "2024-01-01T00:00:00.000Z";
     validTo := lit "2024-12-31T23:59:59.000Z";
     pqcDetected := true |}.

(** A record that is complete except that its certificate claims to be
    valid from a second beyond the range of JavaScript dates. *)
Definition farFutureCert : CDP.CertificateSecurityState :=
  {| CDP.protocol := Some (lit "TLS 1.3");
     CDP.keyExchange := None;
     CDP.keyExchangeGroup := Some (lit "X25519");
     CDP.cipher := Some (lit "TLS_AES_128_GCM_SHA256");
     CDP.subjectName := Some (lit "example.com");
     CDP.issuer := Some (lit "Test CA");
     CDP.validFrom := JInt 8640000000001;
     CDP.validTo := JInt 1735689599 |}.

Definition farFutureRecord : CDP.VisibleSecurityState :=
  {| CDP.securityState := Some (lit "secure");
     CDP.certificateSecurityState := Some farFutureCert |}.

(** A record without a certificate state, as for a page served over
    plain HTTP. *)
Definition plainRecord : CDP.VisibleSecurityState :=
  {| CDP.securityState := Some (lit "neutral");
     CDP.certificateSecurityState := None |}.


Definition sampleUrl : jsstring := lit "https://example.com".

(** A file system with one file of URLs, "urls.txt", holding two URLs, an
    empty line and a line of blanks, and one file of blank lines only. *)
Definition urlsFile : jsstring :=
  lit "https://a.example" ++ [10%N] ++ [10%N] ++ lit "  " ++ [13%N; 10%N]
  ++ lit "https://b.example" ++ [10%N].

Definition blankFile : jsstring := lit " " ++ [10%N] ++ [9%N; 13%N; 10%N].

(** An argument limit for the examples, and a file with one URL more
    than it. *)
Definition sampleLimit : nat := 1000.

Definition longFile : jsstring :=
  List.concat (repeat (lit "https://a.example" ++ [10%N]) 1001).

Definition sampleFs : FileSystem :=
  fun path =>
    if str_eqb path (lit "urls.txt") then File urlsFile
    else if str_eqb path (lit "blank.txt") then File blankFile
    else if str_eqb path (lit "long.txt") then File longFile
    else Missing.

End Samples.

(* ================================================================== *)
(** ** The rest of [checkTLS] and of [main] *)
(* ================================================================== *)

From Stdlib Require Import DecimalString.

(** The handler of the earlier copy of the script: the same statements
    without the "Server" line. *)
Module Earlier.
Import JS CheckPQC.
Local Open Scope handler_scope.

Definition onVisibleSecurityStateChanged (securityState : CDP.VisibleSecurityState)
  : M unit :=
  c <- liftC (classify securityState) ;;
  appendResult separator ;;
  state <- liftC (callToUpperCase (CDP.securityState securityState)) ;;
  appendResult (lock ++ lit " Security State: " ++ state ++ nl) ;;
  appendResult (globe ++ lit " Transport Protocol: " ++ transportLabel c ++ nl) ;;
  appendResult (key ++ lit " Key Exchange: " ++ keyExchange c ++ nl) ;;
  appendResult (arrows ++ lit " Key Exchange Group: " ++ keyExchangeGroup c ++ nl) ;;
  appendResult (lockKey ++ lit " Cipher Suite: " ++ cipher c ++ nl) ;;
  appendResult (scroll ++ lit " Certificate Subject: " ++ subjectName c ++ nl) ;;
  appendResult (building ++ lit " Issuer: " ++ issuer c ++ nl) ;;
  appendResult (calendar ++ lit " Valid From: " ++ validFrom c ++ nl) ;;
  appendResult (calendar ++ lit " Valid To: " ++ validTo c ++ nl) ;;
  appendResult separator ;;
  appendResult
    (if pqcDetected c
     then checkMark ++ lit " This site is using Post-Quantum Encryption (PQC)! "
          ++ popper ++ nl
     else crossMark ++ lit " This site is NOT using Post-Quantum Encryption." ++ nl) ;;
  r <- getResult ;;
  consoleLog r ;;
  r' <- getResult ;;
  logStreamWrite (r' ++ nl).

End Earlier.

Module Driver.
Import JS CheckPQC.

(** *** The [catch] block of [checkTLS] (lines 140-146) *)

Definition http2Marker : jsstring := lit "net::ERR_HTTP2_PROTOCOL_ERROR".

Definition http2Advice : jsstring :=
  lit "HTTP/2 protocol error - This might be due to the site's security policies. Try accessing the site directly in a browser first.".

(** [errorMessage] after lines 141-144, from [error.message]. *)
Definition errorMessage (message : jsstring) : jsstring :=
  if includes message http2Marker then http2Advice else message.

(** *** What the process has done so far *)

(** [stdout] holds the argument of each [console.log], [stderr] the
    arguments of each [console.error], [logged] the chunks given to
    [logStream.write], all oldest first; [logEnded] tells whether
    [logStream.end()] was called; [launched] and [closed] count the
    browsers that [puppeteer.launch] returned and that [browser.close()]
    closed. *)
Record Process := {
  stdout : list jsstring;
  stderr : list (list jsstring);
  logged : list jsstring;
  logEnded : bool;
  launched : nat;
  closed : nat
}.

Definition start : Process :=
  {| stdout := []; stderr := []; logged := []; logEnded := false;
     launched := 0; closed := 0 |}.

(** *** What the browser does for one URL *)

(** The [try] block either fails in an [await] before the handlers are
    installed (lines 59-73), or installs them; then [events] reach the
    handlers until [page.goto] and the wait are over or [page.goto] is
    rejected with [error], and [closing] reach them while
    [browser.close()] is awaited. *)
Inductive TryOutcome :=
| SetupFails (message : jsstring)
| Navigated (events : list PageEvent) (error : option jsstring)
            (closing : list PageEvent).

Record Session := {
  launchError : option jsstring;
  tried : TryOutcome;
  closeError : option jsstring
}.

(** How a call of [checkTLS] or the loop of [main] ends: the promise is
    fulfilled, it is rejected with an error, or an exception has left a
    handler; what the event emitter does with such an exception is not
    part of the script, and the model stops there. *)
Inductive Settled :=
| Fulfilled
| Rejected (message : jsstring)
| Uncaught (x : Exception).

(** The handlers' state within a process: [console.log] and
    [logStream.write] of the handlers write to the process. *)
Definition pageState (result serverHeader : jsstring) (p : Process) : PageState :=
  {| CheckPQC.result := result; CheckPQC.serverHeader := serverHeader;
     console := stdout p; logFile := logged p |}.

Definition withPage (st : PageState) (p : Process) : Process :=
  {| stdout := console st; stderr := stderr p; logged := logFile st;
     logEnded := logEnded p; launched := launched p; closed := closed p |}.

(** The [catch] block. *)
Definition reportError (url message : jsstring) (p : Process) : Process :=
  let errorMessage := errorMessage message in
  {| stdout := stdout p;
     stderr := stderr p
               ++ [[crossMark ++ lit " Error checking " ++ url ++ lit ":"; errorMessage]];
     logged := logged p
               ++ [crossMark ++ lit " Error checking " ++ url ++ lit ": "
                   ++ errorMessage ++ nl];
     logEnded := logEnded p; launched := launched p; closed := closed p |}.

(** The [finally] block: [await browser.close()]. *)
Definition closeBrowser (closeError : option jsstring) (p : Process)
  : Settled * Process :=
  match closeError with
  | Some message => (Rejected message, p)
  | None =>
      (Fulfilled,
       {| stdout := stdout p; stderr := stderr p; logged := logged p;
          logEnded := logEnded p; launched := launched p; closed := S (closed p) |})
  end.

(** [checkTLS] (lines 43-150). *)
Definition checkTLS (url : jsstring) (s : Session) (p : Process)
  : Settled * Process :=
  match launchError s with
  | Some message => (Rejected message, p)
  | None =>
      let p :=
        {| stdout := stdout p; stderr := stderr p; logged := logged p;
           logEnded := logEnded p; launched := S (launched p); closed := closed p |} in
      match tried s with
      | SetupFails message => closeBrowser (closeError s) (reportError url message p)
      | Navigated events error closing =>
          let st0 := initialState url in
          match run events (pageState (result st0) (serverHeader st0) p) with
          | (Throw x, st) => (Uncaught x, withPage st p)
          | (Normal _, st) =>
              let p := withPage st p in
              let p := match error with
                       | Some message => reportError url message p
                       | None => p
                       end in
              match run closing (pageState (result st) (serverHeader st) p) with
              | (Throw x, st') => (Uncaught x, withPage st' p)
              | (Normal _, st') => closeBrowser (closeError s) (withPage st' p)
              end
          end
      end
  end.

(** *** [main] after the URLs are settled (lines 174-180) *)

(** [String(n)] for an array length. *)
Definition decimal (n : nat) : jsstring :=
  lit (NilZero.string_of_uint (Nat.to_uint n)).

(** The loop [for (const url of urls) await checkTLS(url, logStream)];
    [browser k url] is what the browser does at the check number [k] of
    the batch. *)
Fixpoint checkAll (k : nat) (urls : list jsstring)
    (browser : nat -> jsstring -> Session) (p : Process) : Settled * Process :=
  match urls with
  | [] => (Fulfilled, p)
  | url :: urls' =>
      match checkTLS url (browser k url) p with
      | (Fulfilled, p') => checkAll (S k) urls' browser p'
      | (other, p') => (other, p')
      end
  end.

(** How the process of [main] ends. *)
Inductive Ending :=
| Exited (code : Z)        (* [process.exit(code)] *)
| Finished                 (* [main] ran to its end *)
| Failed (message : jsstring)  (* the promise of [main] is rejected *)
| Raised (x : Exception).  (* an exception left [main] or a handler *)

Definition checking (n : nat) : jsstring :=
  nl ++ magnifier ++ lit " Checking " ++ decimal n ++ lit " site(s)..." ++ nl.

Definition allSaved : jsstring :=
  nl ++ checkMark ++ lit " All results saved to pqc_results.log" ++ nl.

(** [main] (lines 156-181). *)
Definition runMain (maxArguments : nat) (args : list jsstring) (fs : FileSystem)
    (browser : nat -> jsstring -> Session) : Ending * Process :=
  match main maxArguments args fs with
  | Throw x => (Raised x, start)
  | Normal (UsageExit message code) =>
      (Exited code,
       {| stdout := []; stderr := [[message]]; logged := []; logEnded := false;
          launched := 0; closed := 0 |})
  | Normal (CheckSites urls) =>
      let p :=
        {| stdout := [checking (List.length urls)]; stderr := []; logged := [];
           logEnded := false; launched := 0; closed := 0 |} in
      match checkAll 0 urls browser p with
      | (Fulfilled, p') =>
          (Finished,
           {| stdout := stdout p' ++ [allSaved]; stderr := stderr p';
              logged := logged p'; logEnded := true;
              launched := launched p'; closed := closed p' |})
      | (Rejected message, p') => (Failed message, p')
      | (Uncaught x, p') => (Raised x, p')
      end
  end.

End Driver.

(* ================================================================== *)
(** ** Further notions and sample inputs *)
(* ================================================================== *)

Module MoreNotions.
Import JS CheckPQC Notions.

(** The [server] header that counts after the responses [hs], oldest
    first: the last one that is present and not empty, ["N/A"] when there
    is none. *)
Definition observedServer (hs : list (option jsstring)) : jsstring :=
  last (filter (fun h => negb (str_eqb h []))
          (flat_map (fun h => match h with Some s => [s] | None => [] end) hs))
       (lit "N/A").

(** The header text that [checkTLS] starts [result] with. *)
Definition reportHeader (url : jsstring) : jsstring :=
  nl ++ linesText [headerLine url].

Definition isNotification (ev : PageEvent) : bool :=
  match ev with
  | SecurityStateChanged _ => true
  | Response _ => false
  end.

(** A notification that its handler handles to the end: the record
    classifies and has an overall state. *)
Definition wellFormed (e : CDP.VisibleSecurityState) : Prop :=
  exists c s, classify e = Normal c /\ CDP.securityState e = Some s.

(** Events none of which makes a handler raise. *)
Definition quietEvents (evs : list PageEvent) : Prop :=
  forall e, In (SecurityStateChanged e) evs -> wellFormed e.

(** The error, if any, that the [try] block of a session ends with. *)
Definition sessionError (s : Driver.Session) : option jsstring :=
  match Driver.tried s with
  | Driver.SetupFails message => Some message
  | Driver.Navigated _ error _ => error
  end.

(** A session whose browser launches and closes and whose events are
    quiet: the page itself may still fail to load. *)
Definition orderly (s : Driver.Session) : Prop :=
  Driver.launchError s = None /\ Driver.closeError s = None
  /\ match Driver.tried s with
     | Driver.SetupFails _ => True
     | Driver.Navigated events _ closing => quietEvents events /\ quietEvents closing
     end.

(** Orderly sessions for all the checks of a batch, numbered from [k]. *)
Fixpoint allOrderly (k : nat) (urls : list jsstring)
    (browser : nat -> jsstring -> Driver.Session) : Prop :=
  match urls with
  | [] => True
  | url :: urls' => orderly (browser k url) /\ allOrderly (S k) urls' browser
  end.

(** The two arguments of the [console.error] of a failed URL, and the
    line written to the log for it. *)
Definition errorArguments (url message : jsstring) : list jsstring :=
  [crossMark ++ lit " Error checking " ++ url ++ lit ":"; Driver.errorMessage message].

Definition errorLine (url message : jsstring) : jsstring :=
  crossMark ++ lit " Error checking " ++ url ++ lit ": "
  ++ Driver.errorMessage message ++ nl.

(** The error reports of a batch: one for each URL whose page failed, in
    the order of the URLs. *)
Fixpoint errorReports (k : nat) (urls : list jsstring)
    (browser : nat -> jsstring -> Driver.Session) : list (list jsstring) :=
  match urls with
  | [] => []
  | url :: urls' =>
      match sessionError (browser k url) with
      | Some message => [errorArguments url message]
      | None => []
      end ++ errorReports (S k) urls' browser
  end.

(** The block of the earlier copy: the lines of the current block without
    the third, the server line. *)
Definition earlierBlock (state : jsstring) (c : Classification) : jsstring :=
  let ls := blockLines state [] c in
  linesText (firstn 2 ls ++ skipn 3 ls).

(** URLs written one per line, each followed by a line feed. *)
Definition urlsFileOf (urls : list jsstring) : jsstring :=
  List.concat (map (fun u => u ++ [10%N]) urls).

End MoreNotions.

Module MoreSamples.
Import JS CheckPQC.

(** A record of a QUIC connection with the same key-exchange group as
    [Samples.sampleRecord]. *)
Definition quicRecord : CDP.VisibleSecurityState :=
  {| CDP.securityState := Some (lit "secure");
     CDP.certificateSecurityState :=
       Some {| CDP.protocol := Some (lit "QUIC");
               CDP.keyExchange := None;
               CDP.keyExchangeGroup := Some (lit "X25519_MLKEM768");
               CDP.cipher := Some (lit "AES_128_GCM");
               CDP.subjectName := Some (lit "quic.example");
               CDP.issuer := Some (lit "Other CA");
               CDP.validFrom := JInt 1700000000;
               CDP.validTo := JInt 1800000000 |} |}.

Definition quicClassification : Classification :=
  {| protocol := lit "QUIC"; tlsVersion := lit "QUIC"; isQUIC := true;
     keyExchange := lit "Handled by QUIC";
     keyExchangeGroup := lit "X25519_MLKEM768";
     cipher := lit "AES_128_GCM"; subjectName := lit "quic.example";
     issuer := lit "Other CA";
     validFrom := lit "2023-11-14T22:13:20.000Z";
     validTo := lit "2027-01-15T08:00:00.000Z";
     pqcDetected := true |}.

(** A browser whose pages load for every URL but "https://down.example",
    where [page.goto] is rejected. *)
Definition sampleBrowser (k : nat) (url : jsstring) : Driver.Session :=
  {| Driver.launchError := None;
     Driver.tried :=
       if str_eqb url (lit "https://down.example")
       then Driver.Navigated [] (Some (lit "net::ERR_NAME_NOT_RESOLVED")) []
       else Driver.Navigated [SecurityStateChanged Samples.sampleRecord;
                              Response (Some (lit "nginx"))] None [];
     Driver.closeError := None |}.

(** A browser that cannot be launched at the second check of a batch. *)
Definition failingBrowser (k : nat) (url : jsstring) : Driver.Session :=
  {| Driver.launchError :=
       if Nat.eqb k 1 then Some (lit "Failed to launch the browser process") else None;
     Driver.tried := Driver.Navigated [] None [];
     Driver.closeError := None |}.

(** A record without an overall state. *)
Definition statelessRecord : CDP.VisibleSecurityState :=
  {| CDP.securityState := None;
     CDP.certificateSecurityState := None |}.

End MoreSamples.

Import MoreNotions MoreSamples.

Import JS Notions Samples.

(* ================================================================== *)
(** ** Facts about the string methods *)
(* ================================================================== *)

Section StringFacts.

Lemma isPrefix_true_iff (p s : jsstring) :
  isPrefix p s = true <-> exists t, s = p ++ t.
Proof.
  revert s; induction p as [|a p IH]; intros s; simpl.
  - split; [intros _; now exists s | reflexivity].
  - destruct s as [|b s].
    + split; [discriminate | intros [t Ht]; discriminate].
    + rewrite andb_true_iff, N.eqb_eq, IH. split.
      * intros [-> [t ->]]. now exists t.
      * intros [t Ht]. injection Ht as -> ->. split; [reflexivity | now exists t].
Qed.

Lemma isPrefix_skipn (p s : jsstring) :
  isPrefix p s = true -> p ++ skipn (List.length p) s = s.
Proof.
  intros H. apply isPrefix_true_iff in H as [t ->].
  now rewrite skipn_app, skipn_all, Nat.sub_diag.
Qed.

Lemma includes_true_iff (s p : jsstring) :
  includes s p = true <-> substring p s.
Proof.
  unfold substring. induction s as [|c s IH].
  - simpl. rewrite orb_false_r, isPrefix_true_iff. split.
    + intros [t Ht]. now exists [], t.
    + intros [pre [post H]]. destruct pre; [now exists post | discriminate].
  - cbn [includes]. rewrite orb_true_iff, isPrefix_true_iff, IH. split.
    + intros [[t Ht] | [pre [post H]]].
      * now exists [], t.
      * exists (c :: pre), post. now rewrite H.
    + intros [pre [post H]]. destruct pre as [|c' pre].
      * left. now exists post.
      * right. injection H as _ H. now exists pre, post.
Qed.

Lemma includes_false_iff (s p : jsstring) :
  includes s p = false <-> ~ substring p s.
Proof.
  rewrite <- includes_true_iff. destruct (includes s p); split; congruence.
Qed.

(** Replacing a pattern by itself changes nothing. *)
Lemma replace_same (s p : jsstring) : replace s p p = s.
Proof.
  induction s as [|c s IH]; simpl.
  - destruct (isPrefix p []) eqn:E; [|reflexivity].
    now apply isPrefix_skipn in E.
  - destruct (isPrefix p (c :: s)) eqn:E.
    + now apply isPrefix_skipn in E.
    + now rewrite IH.
Qed.

End StringFacts.

(* ================================================================== *)
(** ** The classification of a record *)
(* ================================================================== *)

Import CheckPQC.

Section Classify.

(** Line 85: the replacement puts back what it matched. *)
Lemma tls_same (p : jsstring) :
  (if startsWith p (lit "TLS") then replace p (lit "TLS ") (lit "TLS ") else p) = p.
Proof. rewrite replace_same. now destruct (startsWith p (lit "TLS")). Qed.

(** What [classify] returns when neither timestamp raises. *)
Lemma classify_Normal (e : CDP.VisibleSecurityState) (c : Classification) :
  classify e = Normal c ->
  let o := certStateOf e in
  let p := or_default (CDP.protocol o) (lit "Unknown") in
  protocol c = p
  /\ tlsVersion c = p
  /\ isQUIC c = includes p (lit "QUIC")
  /\ keyExchange c =
       or_default (CDP.keyExchange o)
         (if includes p (lit "QUIC") then lit "Handled by QUIC" else lit "N/A")
  /\ keyExchangeGroup c = or_default (CDP.keyExchangeGroup o) (lit "N/A")
  /\ cipher c = or_default (CDP.cipher o) (lit "N/A")
  /\ subjectName c = or_default (CDP.subjectName o) (lit "N/A")
  /\ issuer c = or_default (CDP.issuer o) (lit "N/A")
  /\ formatTimestamp (CDP.validFrom o) = Normal (validFrom c)
  /\ formatTimestamp (CDP.validTo o) = Normal (validTo c)
  /\ pqcDetected c = includes (keyExchangeGroup c) (lit "MLKEM").
Proof.
  unfold classify, certStateOf. intros H. rewrite tls_same in H.
  destruct (formatTimestamp (CDP.validFrom _)) as [vf|] eqn:Ef; [|discriminate].
  destruct (formatTimestamp (CDP.validTo _)) as [vt|] eqn:Et; [|discriminate].
  unfold bind in H. injection H as <-.
  unfold protocol, tlsVersion, isQUIC, keyExchange, keyExchangeGroup, cipher,
    subjectName, issuer, validFrom, validTo, pqcDetected.
  repeat split; reflexivity.
Qed.

End Classify.



(* ================================================================== *)
(** ** The calendar arithmetic of [toISOString] *)
(* ================================================================== *)

Section DateFacts.
Import JSDate.
Local Open Scope Z_scope.

Lemma DaysInYear_cases (y : Z) : DaysInYear y = 365 \/ DaysInYear y = 366.
Proof.
  unfold DaysInYear.
  destruct (y mod 4 =? 0), (y mod 100 =? 0), (y mod 400 =? 0); cbn; auto.
Qed.

Lemma DayFromYear_succ (y : Z) : DayFromYear (y + 1) = DayFromYear y + DaysInYear y.
Proof.
  unfold DayFromYear, DaysInYear.
  destruct (y mod 4 =? 0) eqn:E4; destruct (y mod 100 =? 0) eqn:E100;
    destruct (y mod 400 =? 0) eqn:E400; cbn [negb];
    rewrite ?Z.eqb_eq, ?Z.eqb_neq in *;
    Z.div_mod_to_equations; lia.
Qed.

Lemma DayFromYear_lt (y y' : Z) : y < y' -> DayFromYear y < DayFromYear y'.
Proof.
  unfold DayFromYear. intros H. Z.div_mod_to_equations. lia.
Qed.

(** [YearFromDay] meets its defining inequality ... *)
Lemma YearFromDay_spec (d : Z) :
  DayFromYear (YearFromDay d) <= d < DayFromYear (YearFromDay d + 1).
Proof.
  unfold YearFromDay.
  set (y := 1970 + 400 * d / 146097).
  assert (Hl : DayFromYear (y - 1) <= d).
  { unfold DayFromYear, y. Z.div_mod_to_equations. lia. }
  assert (Hu : d < DayFromYear (y + 2)).
  { unfold DayFromYear, y. Z.div_mod_to_equations. lia. }
  destruct (d <? DayFromYear y) eqn:E1.
  - apply Z.ltb_lt in E1. replace (y - 1 + 1) with y by lia. lia.
  - apply Z.ltb_ge in E1. destruct (DayFromYear (y + 1) <=? d) eqn:E2.
    + apply Z.leb_le in E2. replace (y + 1 + 1) with (y + 2) by lia. lia.
    + apply Z.leb_gt in E2. lia.
Qed.

(** ... and is the largest year that does: ECMA-262's [YearFromTime]. *)
Lemma YearFromTime_largest (t y : Z) :
  TimeFromYear y <= t <-> y <= YearFromTime t.
Proof.
  unfold TimeFromYear, YearFromTime.
  pose proof (YearFromDay_spec (Day t)) as [Hl Hu].
  assert (Hd : DayFromYear y <= Day t <-> msPerDay * DayFromYear y <= t).
  { unfold Day, msPerDay. Z.div_mod_to_equations. lia. }
  rewrite <- Hd. split; intros H.
  - destruct (Z_lt_le_dec (YearFromDay (Day t)) y) as [Hlt|]; [|assumption].
    assert (DayFromYear (YearFromDay (Day t) + 1) <= DayFromYear y).
    { destruct (Z.eq_dec (YearFromDay (Day t) + 1) y) as [->|]; [lia|].
      apply Z.lt_le_incl, DayFromYear_lt. lia. }
    lia.
  - destruct (Z.eq_dec y (YearFromDay (Day t))) as [->|]; [assumption|].
    assert (DayFromYear y < DayFromYear (YearFromDay (Day t)))
      by (apply DayFromYear_lt; lia).
    lia.
Qed.

Lemma DayWithinYear_range (t : Z) :
  0 <= DayWithinYear t < DaysInYear (YearFromTime t).
Proof.
  unfold DayWithinYear, YearFromTime.
  pose proof (YearFromDay_spec (Day t)) as H.
  rewrite DayFromYear_succ in H. lia.
Qed.

Lemma InLeapYear_eq (t : Z) : InLeapYear t = DaysInYear (YearFromTime t) - 365.
Proof.
  unfold InLeapYear.
  destruct (DaysInYear_cases (YearFromTime t)) as [-> | ->]; reflexivity.
Qed.

(** Evaluates [DaysBeforeMonth] and the test for December at the month
    numbers of the goal. *)
Ltac month_tables :=
  repeat match goal with
         | |- context [DaysBeforeMonth ?l ?m] =>
             let v := eval cbv in m in
             let r := eval cbv beta iota delta [DaysBeforeMonth] in (DaysBeforeMonth l v) in
             change (DaysBeforeMonth l m) with r
         | |- context [?k =? 11] =>
             let v := eval cbv in (k =? 11) in change (k =? 11) with v
         end;
  cbv iota.

(** The month table and the date table agree with [DaysBeforeMonth]. *)
Lemma month_date_tables (d l : Z) :
  0 <= l <= 1 -> 0 <= d < 365 + l ->
  let m :=
    if d <? 31 then 0 else if d <? 59 + l then 1 else if d <? 90 + l then 2
    else if d <? 120 + l then 3 else if d <? 151 + l then 4
    else if d <? 181 + l then 5 else if d <? 212 + l then 6
    else if d <? 243 + l then 7 else if d <? 273 + l then 8
    else if d <? 304 + l then 9 else if d <? 334 + l then 10 else 11 in
  let dt :=
    match m with
    | 0 => d + 1 | 1 => d - 30 | 2 => d - 58 - l | 3 => d - 89 - l
    | 4 => d - 119 - l | 5 => d - 150 - l | 6 => d - 180 - l
    | 7 => d - 211 - l | 8 => d - 242 - l | 9 => d - 272 - l
    | 10 => d - 303 - l | _ => d - 333 - l
    end in
  0 <= m <= 11
  /\ 1 <= dt <= (if m =? 11 then 31 else DaysBeforeMonth l (m + 1) - DaysBeforeMonth l m)
  /\ DaysBeforeMonth l m + dt - 1 = d.
Proof.
  intros Hl Hd. cbv zeta.
  repeat (match goal with
          | |- context [?a <? ?b] => destruct (Z.ltb_spec a b)
          end; cbv iota);
    month_tables; lia.
Qed.

(** The fields that [toISOString] prints are in range and stand for the
    time value they were computed from. *)
Lemma fields_of_time (t : Z) :
  validFields (YearFromTime t) (MonthFromTime t) (DateFromTime t)
    (HourFromTime t) (MinFromTime t) (SecFromTime t) (msFromTime t)
  /\ timeOfFields (YearFromTime t) (MonthFromTime t) (DateFromTime t)
       (HourFromTime t) (MinFromTime t) (SecFromTime t) (msFromTime t) = t.
Proof.
  pose proof (DayWithinYear_range t) as Hd.
  pose proof (InLeapYear_eq t) as Hl.
  assert (Hl01 : 0 <= InLeapYear t <= 1).
  { destruct (DaysInYear_cases (YearFromTime t)); lia. }
  assert (Hd' : 0 <= DayWithinYear t < 365 + InLeapYear t) by lia.
  pose proof (month_date_tables _ _ Hl01 Hd') as Ht. cbv zeta in Ht.
  fold (MonthFromTime t) in Ht. fold (DateFromTime t) in Ht.
  destruct Ht as (Hm & Hdt & Hsum).
  unfold validFields, timeOfFields, MakeDate, MakeDay, DaysInMonth.
  rewrite <- Hl.
  assert (Hday : DayFromYear (YearFromTime t) + DaysBeforeMonth (InLeapYear t) (MonthFromTime t)
                 + DateFromTime t - 1 = Day t).
  { unfold DayWithinYear in Hsum. lia. }
  rewrite Hday.
  unfold HourFromTime, MinFromTime, SecFromTime, msFromTime, MakeTime, Day,
    msPerHour, msPerMinute, msPerSecond, msPerDay.
  repeat split; try lia; try (apply Z.mod_pos_bound; lia).
  Z.div_mod_to_equations. lia.
Qed.

(** The months of a year do not overlap: a day of the year lies in one
    month, on one day of it. *)
Lemma month_of_day_unique (l m m' d d' : Z) :
  0 <= l <= 1 -> 0 <= m <= 11 -> 0 <= m' <= 11 ->
  1 <= d <= (if m =? 11 then 31 else DaysBeforeMonth l (m + 1) - DaysBeforeMonth l m) ->
  1 <= d' <= (if m' =? 11 then 31 else DaysBeforeMonth l (m' + 1) - DaysBeforeMonth l m') ->
  DaysBeforeMonth l m + d = DaysBeforeMonth l m' + d' ->
  m = m' /\ d = d'.
Proof.
  intros Hl Hm Hm'.
  assert (Em : m = 0 \/ m = 1 \/ m = 2 \/ m = 3 \/ m = 4 \/ m = 5 \/ m = 6
               \/ m = 7 \/ m = 8 \/ m = 9 \/ m = 10 \/ m = 11) by lia.
  assert (Em' : m' = 0 \/ m' = 1 \/ m' = 2 \/ m' = 3 \/ m' = 4 \/ m' = 5 \/ m' = 6
                \/ m' = 7 \/ m' = 8 \/ m' = 9 \/ m' = 10 \/ m' = 11) by lia.
  clear Hm Hm'.
  repeat (destruct Em as [-> | Em]); try subst m;
    repeat (destruct Em' as [-> | Em']); try subst m';
    month_tables; lia.
Qed.

(** In-range fields that stand for a time value are the fields that
    [toISOString] computes from it. *)
Lemma fields_unique (t y mo d h mi s ms : Z) :
  validFields y mo d h mi s ms ->
  timeOfFields y mo d h mi s ms = t ->
  y = YearFromTime t /\ mo = MonthFromTime t /\ d = DateFromTime t
  /\ h = HourFromTime t /\ mi = MinFromTime t /\ s = SecFromTime t
  /\ ms = msFromTime t.
Proof.
  intros (Hmo & Hd & Hh & Hmi & Hs & Hms) Ht.
  destruct (fields_of_time t) as [(Hmo' & Hd' & _) Ht'].
  unfold timeOfFields, MakeDate in Ht, Ht'.
  assert (Hsplit : MakeDay y mo d = Day t
                   /\ h = HourFromTime t /\ mi = MinFromTime t
                   /\ s = SecFromTime t /\ ms = msFromTime t).
  { unfold Day, MakeTime, HourFromTime, MinFromTime, SecFromTime, msFromTime,
      msPerDay, msPerHour, msPerMinute, msPerSecond in *.
    Z.div_mod_to_equations. lia. }
  destruct Hsplit as (Hday & Eh & Emi & Es & Ems).
  assert (Hday' : MakeDay (YearFromTime t) (MonthFromTime t) (DateFromTime t) = Day t).
  { unfold Day, MakeTime, HourFromTime, MinFromTime, SecFromTime, msFromTime,
      msPerDay, msPerHour, msPerMinute, msPerSecond in *.
    Z.div_mod_to_equations. lia. }
  assert (Hl : 0 <= DaysInYear y - 365 <= 1)
    by (destruct (DaysInYear_cases y); lia).
  unfold DaysInMonth in Hd, Hd'. cbv zeta in Hd, Hd'.
  unfold MakeDay in Hday, Hday'.
  (* the day of the year is within the year, so the year is the one of [t] *)
  assert (Hoff : 0 <= DaysBeforeMonth (DaysInYear y - 365) mo + d - 1 < DaysInYear y).
  { assert (Em : mo = 0 \/ mo = 1 \/ mo = 2 \/ mo = 3 \/ mo = 4 \/ mo = 5 \/ mo = 6
                 \/ mo = 7 \/ mo = 8 \/ mo = 9 \/ mo = 10 \/ mo = 11) by lia.
    revert Hd.
    repeat (destruct Em as [-> | Em]); try subst mo; month_tables; lia. }
  assert (Ey : y = YearFromTime t).
  { pose proof (YearFromTime_largest t y) as Hle.
    pose proof (YearFromTime_largest t (y + 1)) as Hlt.
    unfold TimeFromYear in Hle, Hlt. rewrite DayFromYear_succ in Hlt.
    unfold Day, msPerDay in *. Z.div_mod_to_equations. lia. }
  subst y. rewrite <- InLeapYear_eq in *.
  destruct (month_of_day_unique (InLeapYear t) mo (MonthFromTime t) d (DateFromTime t))
    as [Emo Ed]; [assumption | assumption | assumption | assumption
                  | assumption | lia |].
  repeat split; assumption || reflexivity.
Qed.

(** A second has one date-time string. *)
Lemma isoOfSeconds_unique (t y : Z) (str : jsstring) :
  isoOfSeconds t y str ->
  y = YearFromTime (t * 1000)
  /\ toISOString (Some (t * 1000)) = Normal str.
Proof.
  intros (mo & d & h & mi & s & Hv & Ht & ->).
  destruct (fields_unique _ _ _ _ _ _ _ _ Hv Ht)
    as (-> & -> & -> & -> & -> & -> & Hms).
  split; [reflexivity|]. unfold toISOString. now rewrite <- Hms.
Qed.

End DateFacts.

(* ================================================================== *)
(** ** [formatTimestamp] *)
(* ================================================================== *)

Section FormatTimestamp.
Import JSDate.
Local Open Scope Z_scope.

Lemma digits_length (w : nat) (n : Z) : List.length (digits w n) = w.
Proof.
  revert n; induction w as [|w IH]; intros n; simpl; [reflexivity|].
  rewrite length_app, IH. simpl. lia.
Qed.

Lemma yearString_length (y : Z) :
  List.length (yearString y) = 4%nat \/ List.length (yearString y) = 7%nat.
Proof.
  unfold yearString. destruct ((0 <=? y) && (y <=? 9999)).
  - left. apply digits_length.
  - right. rewrite length_app, digits_length. now destruct (y <? 0).
Qed.

Lemma isoFormat_length (y mo d h mi s ms : Z) :
  (24 <= List.length (isoFormat y mo d h mi s ms))%nat.
Proof.
  unfold isoFormat. rewrite !length_app, !digits_length.
  destruct (yearString_length y) as [-> | ->]; simpl; lia.
Qed.

Lemma isoFormat_not_NA (y mo d h mi s ms : Z) :
  isoFormat y mo d h mi s ms <> lit "N/A".
Proof.
  intros H. pose proof (isoFormat_length y mo d h mi s ms) as L.
  rewrite H in L. simpl in L. lia.
Qed.

(** A whole second prints with the millisecond part "000" and the "Z". *)
Lemma isoFormat_ms0_suffix (y mo d h mi s : Z) :
  exists body, isoFormat y mo d h mi s 0 = body ++ lit ".000Z".
Proof.
  unfold isoFormat.
  exists (yearString y ++ lit "-" ++ digits 2 (mo + 1) ++ lit "-" ++ digits 2 d
          ++ lit "T" ++ digits 2 h ++ lit ":" ++ digits 2 mi ++ lit ":" ++ digits 2 s).
  rewrite <- !app_assoc. reflexivity.
Qed.

(** On a falsy timestamp. *)
Lemma formatTimestamp_falsy (v : jsnum) :
  truthy_num v = false -> formatTimestamp v = Normal (lit "N/A").
Proof. unfold formatTimestamp. now intros ->. Qed.

(** On a non-zero number of seconds whose milliseconds are a time value. *)
Lemma formatTimestamp_in_range (t : Z) :
  t <> 0 -> - maxSeconds <= t <= maxSeconds ->
  exists str, formatTimestamp (JInt t) = Normal str
              /\ isoOfSeconds t (YearFromTime (t * 1000)) str.
Proof.
  intros Ht Hr. unfold formatTimestamp, truthy_num.
  destruct (Z.eqb_spec t 0) as [|_]; [contradiction|].
  unfold negb, times, newDate, TimeClip.
  destruct (Z.ltb_spec maxTime (Z.abs (t * 1000))) as [Hbig|_].
  { unfold maxSeconds, maxTime in *. lia. }
  unfold toISOString. eexists. split; [reflexivity|].
  destruct (fields_of_time (t * 1000)) as [Hv Heq].
  assert (Hms : msFromTime (t * 1000) = 0).
  { unfold msFromTime, msPerSecond. apply Z.mod_mul. lia. }
  rewrite Hms in *.
  exists (MonthFromTime (t * 1000)), (DateFromTime (t * 1000)),
    (HourFromTime (t * 1000)), (MinFromTime (t * 1000)), (SecFromTime (t * 1000)).
  repeat split; try assumption; apply Hv.
Qed.

(** Beyond that range [toISOString] raises. *)
Lemma formatTimestamp_out_of_range (t : Z) :
  maxSeconds < Z.abs t -> formatTimestamp (JInt t) = Throw RangeError.
Proof.
  intros Hr. unfold formatTimestamp, truthy_num.
  destruct (Z.eqb_spec t 0) as [->|_]; [unfold maxSeconds in Hr; lia|].
  unfold negb, times, newDate, TimeClip.
  destruct (Z.ltb_spec maxTime (Z.abs (t * 1000))) as [_|Hsmall];
    [reflexivity|].
  unfold maxSeconds, maxTime in *. lia.
Qed.

(** The year of a time value before the epoch is before 1970, and
    conversely. *)
Lemma YearFromTime_before_epoch (t : Z) : t < 0 <-> YearFromTime t < 1970.
Proof.
  pose proof (YearFromTime_largest t 1970) as H.
  unfold TimeFromYear in H. change (msPerDay * DayFromYear 1970) with 0 in H.
  lia.
Qed.

Lemma formatTimestamp_NA_iff (v : jsnum) :
  formatTimestamp v = Normal (lit "N/A") <-> truthy_num v = false.
Proof.
  split; [|apply formatTimestamp_falsy].
  unfold formatTimestamp. destruct (truthy_num v); [|reflexivity].
  cbn [negb]. destruct (newDate (times v 1000)) as [tv|]; cbn [toISOString].
  - intros H. injection H as H. now apply isoFormat_not_NA in H.
  - discriminate.
Qed.

End FormatTimestamp.

(** C4, amended.  Zero, [null] and [undefined] format as "N/A".  A positive
    whole number of seconds up to 8640000000000 formats as the UTC date-time
    string of that second, the only one there is, ending in ".000Z";
    1704067200 formats as "2024-01-01T00:00:00.000Z". *)
Theorem formatTimestamp_positive (t : Z) :
  (0 < t <= maxSeconds)%Z ->
  formatTimestamp (JInt 0) = Normal (lit "N/A")
  /\ formatTimestamp JNull = Normal (lit "N/A")
  /\ formatTimestamp JUndefined = Normal (lit "N/A")
  /\ (exists y str,
        formatTimestamp (JInt t) = Normal str
        /\ isoOfSeconds t y str
        /\ (forall y' str', isoOfSeconds t y' str' -> str' = str)
        /\ exists body, str = body ++ lit ".000Z")
  /\ formatTimestamp (JInt 1704067200) = Normal (lit "2024-01-01T00:00:00.000Z").
Proof.
  intros Ht. repeat split; try reflexivity.
  destruct (formatTimestamp_in_range t) as (str & Hs & Hiso);
    [lia | unfold maxSeconds in *; lia |].
  exists (JSDate.YearFromTime (t * 1000)), str.
  split; [exact Hs|]. split; [exact Hiso|]. split.
  - intros y' str' H'.
    apply isoOfSeconds_unique in H' as [_ H'], Hiso as [_ Hiso].
    congruence.
  - destruct Hiso as (mo & d & h & mi & s & _ & _ & ->).
    apply isoFormat_ms0_suffix.
Qed.

Lemma formatTimestamp_positive_witness :
  exists y str,
    formatTimestamp (JInt 1704067200) = Normal str
    /\ isoOfSeconds 1704067200 y str
    /\ (forall y' str', isoOfSeconds 1704067200 y' str' -> str' = str)
    /\ exists body, str = body ++ lit ".000Z".
Proof.
  apply (formatTimestamp_positive 1704067200). unfold maxSeconds. lia.
Defined.

(** C4 as stated fails: a positive whole number of seconds beyond the range
    of dates makes [toISOString] raise, so no string is returned. *)
Lemma formatTimestamp_positive_counterexample :
  (0 < 8640000000001)%Z
  /\ formatTimestamp (JInt 8640000000001) = Throw RangeError
  /\ ~ (forall t : Z, (0 < t)%Z -> exists str, formatTimestamp (JInt t) = Normal str).
Proof.
  split; [lia|]. split; [reflexivity|].
  intros H. destruct (H 8640000000001%Z) as [str Hs]; [lia|]. discriminate Hs.
Qed.

(** C9, amended.  A negative whole number of seconds down to -8640000000000
    formats as the UTC date-time string of that second, in a year before
    1970, and not as "N/A"; -1 formats as "1969-12-31T23:59:59.000Z"; "N/A"
    is returned for the falsy inputs only. *)
Theorem formatTimestamp_negative (t : Z) :
  (- maxSeconds <= t < 0)%Z ->
  (exists y str,
     formatTimestamp (JInt t) = Normal str
     /\ (y < 1970)%Z
     /\ isoOfSeconds t y str
     /\ str <> lit "N/A")
  /\ formatTimestamp (JInt (-1)) = Normal (lit "1969-12-31T23:59:59.000Z")
  /\ (forall v, formatTimestamp v = Normal (lit "N/A") <-> truthy_num v = false).
Proof.
  intros Ht. split; [|split; [reflexivity | apply formatTimestamp_NA_iff]].
  destruct (formatTimestamp_in_range t) as (str & Hs & Hiso);
    [lia | unfold maxSeconds in *; lia |].
  exists (JSDate.YearFromTime (t * 1000)), str. repeat split; try assumption.
  - apply YearFromTime_before_epoch. lia.
  - intros E. rewrite E in Hs. apply formatTimestamp_NA_iff in Hs.
    cbn in Hs. destruct (Z.eqb_spec t 0); [lia | discriminate].
Qed.

Lemma formatTimestamp_negative_witness :
  exists y str,
    formatTimestamp (JInt (-86400)) = Normal str
    /\ (y < 1970)%Z
    /\ isoOfSeconds (-86400) y str
    /\ str <> lit "N/A".
Proof.
  apply (formatTimestamp_negative (-86400)). unfold maxSeconds. lia.
Defined.

(** C9 as stated fails: a negative whole number of seconds beyond the range
    of dates makes [toISOString] raise. *)
Lemma formatTimestamp_negative_counterexample :
  (-8640000000001 < 0)%Z
  /\ formatTimestamp (JInt (-8640000000001)) = Throw RangeError
  /\ ~ (forall t : Z, (t < 0)%Z -> exists str, formatTimestamp (JInt t) = Normal str).
Proof.
  split; [lia|]. split; [reflexivity|].
  intros H. destruct (H (-8640000000001)%Z) as [str Hs]; [lia|]. discriminate Hs.
Qed.

(* ================================================================== *)
(** ** The handlers *)
(* ================================================================== *)

Section Handlers.

Lemma onResponse_state (server : option jsstring) (st : PageState) :
  onResponse server st =
    (Normal tt,
     {| result := result st;
        serverHeader := or_default server (serverHeader st);
        console := console st;
        logFile := logFile st |}).
Proof.
  destruct st as [r h co lf]. now destruct server as [[|x s]|].
Qed.

Lemma stateWithServer_eq (url : jsstring) (server : option jsstring) :
  stateWithServer url server =
    {| result := nl ++ linesText [headerLine url];
       serverHeader := or_default server (lit "N/A");
       console := [];
       logFile := [] |}.
Proof.
  unfold stateWithServer. rewrite onResponse_state. cbn [snd].
  unfold initialState, linesText, headerLine.
  cbn [result serverHeader console logFile map List.concat].
  now rewrite app_nil_r, <- !app_assoc.
Qed.

(** The statements [result += ...] of lines 101-116, one after the other,
    append the block of the notification. *)
Lemma appended_block (r state h : jsstring) (c : Classification) :
  ((((((((((((r ++ separator)
      ++ lock ++ lit " Security State: " ++ state ++ nl)
      ++ desktop ++ lit " Server: " ++ h ++ nl)
      ++ globe ++ lit " Transport Protocol: " ++ transportLabel c ++ nl)
      ++ key ++ lit " Key Exchange: " ++ keyExchange c ++ nl)
      ++ arrows ++ lit " Key Exchange Group: " ++ keyExchangeGroup c ++ nl)
      ++ lockKey ++ lit " Cipher Suite: " ++ cipher c ++ nl)
      ++ scroll ++ lit " Certificate Subject: " ++ subjectName c ++ nl)
      ++ building ++ lit " Issuer: " ++ issuer c ++ nl)
      ++ calendar ++ lit " Valid From: " ++ validFrom c ++ nl)
      ++ calendar ++ lit " Valid To: " ++ validTo c ++ nl)
      ++ separator)
      ++ (if pqcDetected c
          then checkMark ++ lit " This site is using Post-Quantum Encryption (PQC)! "
               ++ popper ++ nl
          else crossMark ++ lit " This site is NOT using Post-Quantum Encryption." ++ nl)
  = r ++ reportBlock state h c.
Proof.
  unfold reportBlock, linesText, blockLines, verdictLine, separator, separatorLine.
  cbn [map List.concat]. destruct (pqcDetected c);
    rewrite <- ?app_assoc, ?app_nil_r; reflexivity.
Qed.

(** A notification whose record classifies and has an overall state
    appends its block to [result] and emits the whole of [result]. *)
Lemma handler_Normal (e : CDP.VisibleSecurityState) (c : Classification)
    (s : jsstring) (st : PageState) :
  classify e = Normal c ->
  CDP.securityState e = Some s ->
  let text := result st ++ reportBlock (toUpperCase s) (serverHeader st) c in
  onVisibleSecurityStateChanged e st =
    (Normal tt,
     {| result := text;
        serverHeader := serverHeader st;
        console := console st ++ [text];
        logFile := logFile st ++ [text ++ nl] |}).
Proof.
  intros Hc Hs text. destruct st as [r h co lf].
  unfold onVisibleSecurityStateChanged. rewrite Hc, Hs.
  subst text. cbn [result serverHeader console logFile].
  rewrite <- (appended_block r (toUpperCase s) h c).
  reflexivity.
Qed.

(** A record without an overall state stops the handler at line 102, after
    the first separator has been appended. *)
Lemma handler_no_state (e : CDP.VisibleSecurityState) (c : Classification)
    (st : PageState) :
  classify e = Normal c ->
  CDP.securityState e = None ->
  onVisibleSecurityStateChanged e st =
    (Throw TypeError,
     {| result := result st ++ separator;
        serverHeader := serverHeader st;
        console := console st;
        logFile := logFile st |}).
Proof.
  intros Hc Hs. unfold onVisibleSecurityStateChanged. rewrite Hc, Hs.
  reflexivity.
Qed.

(** A record whose timestamps do not format leaves the state as it was. *)
Lemma handler_classify_Throw (e : CDP.VisibleSecurityState) (x : Exception)
    (st : PageState) :
  classify e = Throw x ->
  onVisibleSecurityStateChanged e st = (Throw x, st).
Proof.
  intros Hc. unfold onVisibleSecurityStateChanged, mbind, liftC.
  now rewrite Hc.
Qed.

Lemma formatTimestamp_returns (v : jsnum) :
  timestampInRange v -> exists str, formatTimestamp v = Normal str.
Proof.
  destruct v as [| | |z]; try (intros _; eexists; reflexivity).
  cbn [timestampInRange]. intros Hz.
  destruct (Z.eq_dec z 0) as [->|Hnz]; [eexists; reflexivity|].
  destruct (formatTimestamp_in_range z Hnz) as (str & Hs & _); [lia|].
  now exists str.
Qed.

(** On a record with an overall state and timestamps in range the handler
    ends without an exception: every absent field has a default. *)
Lemma handler_returns_in_range (e : CDP.VisibleSecurityState) (s : jsstring)
    (st : PageState) :
  CDP.securityState e = Some s ->
  timestampInRange (CDP.validFrom (certStateOf e)) ->
  timestampInRange (CDP.validTo (certStateOf e)) ->
  fst (onVisibleSecurityStateChanged e st) = Normal tt.
Proof.
  intros Hs Hf Ht.
  apply formatTimestamp_returns in Hf as [vf Hf], Ht as [vt Ht].
  assert (Hc : exists c, classify e = Normal c).
  { unfold classify. fold (certStateOf e). rewrite Hf, Ht. cbn [bind]. eauto. }
  destruct Hc as [c Hc]. now rewrite (handler_Normal e c s st Hc Hs).
Qed.

Lemma notificationBlock_Some (server : jsstring) (e : CDP.VisibleSecurityState)
    (b : jsstring) :
  notificationBlock server e = Some b ->
  exists c s, classify e = Normal c /\ CDP.securityState e = Some s
              /\ b = reportBlock (toUpperCase s) server c.
Proof.
  unfold notificationBlock.
  destruct (classify e) as [c|]; [|discriminate].
  destruct (CDP.securityState e) as [s|]; [|discriminate].
  intros H; injection H as <-. eauto.
Qed.

(** Notifications in a row: each one extends [result] by its block and
    emits all of it. *)
Lemma run_notifications (es : list CDP.VisibleSecurityState) :
  forall (blocks : list jsstring) (st : PageState),
    map (notificationBlock (serverHeader st)) es = map Some blocks ->
    run (map SecurityStateChanged es) st =
      (Normal tt,
       {| result := result st ++ List.concat blocks;
          serverHeader := serverHeader st;
          console := console st ++ accumulated (result st) blocks;
          logFile := logFile st
                     ++ map (fun t => t ++ nl) (accumulated (result st) blocks) |}).
Proof.
  induction es as [|e es IH]; intros blocks st H.
  - destruct blocks; [|discriminate]. cbn. rewrite !app_nil_r. now destruct st.
  - destruct blocks as [|b blocks]; [discriminate|].
    cbn [map] in H. injection H as Hb Hrest.
    apply notificationBlock_Some in Hb as (c & s & Hc & Hs & ->).
    cbn [map run dispatch]. unfold mbind.
    rewrite (handler_Normal e c s st Hc Hs). cbv zeta.
    rewrite IH with (blocks := blocks) by exact Hrest.
    cbn [result serverHeader console logFile List.concat accumulated map].
    rewrite <- !app_assoc. reflexivity.
Qed.

Lemma accumulated_length (pre : jsstring) (blocks : list jsstring) :
  List.length (accumulated pre blocks) = List.length blocks.
Proof.
  revert pre; induction blocks as [|b bs IH]; intros pre; simpl; [reflexivity|].
  now rewrite IH.
Qed.

(** The text at position [k] holds the first [k + 1] blocks. *)
Lemma accumulated_nth (blocks : list jsstring) :
  forall (pre : jsstring) (k : nat),
    (k < List.length blocks)%nat ->
    nth k (accumulated pre blocks) [] = pre ++ List.concat (firstn (S k) blocks).
Proof.
  induction blocks as [|b bs IH]; intros pre k Hk; [simpl in Hk; lia|].
  destruct k as [|k].
  - cbn. now rewrite app_nil_r.
  - cbn [accumulated nth]. rewrite IH by (simpl in Hk; lia).
    cbn [firstn List.concat]. now rewrite <- app_assoc.
Qed.

End Handlers.

(* ================================================================== *)
(** ** Records without a certificate state, and the transport label *)
(* ================================================================== *)

(** C2, amended.  For a record without a certificate state [classify]
    returns: the transport label is "Unknown", every other label and both
    dates are "N/A", and [pqcDetected] is false; with an overall state
    present the handler ends without an exception. *)
Theorem classify_absent_certificate (e : CDP.VisibleSecurityState) :
  CDP.certificateSecurityState e = None ->
  (exists c,
     classify e = Normal c
     /\ transportLabel c = lit "Unknown"
     /\ keyExchange c = lit "N/A"
     /\ keyExchangeGroup c = lit "N/A"
     /\ cipher c = lit "N/A"
     /\ subjectName c = lit "N/A"
     /\ issuer c = lit "N/A"
     /\ validFrom c = lit "N/A"
     /\ validTo c = lit "N/A"
     /\ pqcDetected c = false)
  /\ (forall s st, CDP.securityState e = Some s ->
                   fst (onVisibleSecurityStateChanged e st) = Normal tt).
Proof.
  intros H.
  assert (Hc : exists c, classify e = Normal c
                         /\ c = {| protocol := lit "Unknown"; tlsVersion := lit "Unknown";
                                   isQUIC := false; keyExchange := lit "N/A";
                                   keyExchangeGroup := lit "N/A"; cipher := lit "N/A";
                                   subjectName := lit "N/A"; issuer := lit "N/A";
                                   validFrom := lit "N/A"; validTo := lit "N/A";
                                   pqcDetected := false |}).
  { unfold classify. rewrite H. eexists. split; reflexivity. }
  destruct Hc as (c & Hc & Ec). split.
  - exists c. split; [exact Hc|]. subst c. repeat split.
  - intros s st Hs. now rewrite (handler_Normal e c s st Hc Hs).
Qed.

Lemma classify_absent_certificate_witness :
  exists c,
    classify plainRecord = Normal c
    /\ transportLabel c = lit "Unknown"
    /\ keyExchange c = lit "N/A"
    /\ keyExchangeGroup c = lit "N/A"
    /\ cipher c = lit "N/A"
    /\ subjectName c = lit "N/A"
    /\ issuer c = lit "N/A"
    /\ validFrom c = lit "N/A"
    /\ validTo c = lit "N/A"
    /\ pqcDetected c = false.
Proof.
  apply (classify_absent_certificate plainRecord). reflexivity.
Defined.

(** C2 as stated fails: without a certificate state the transport label
    is not "N/A". *)
Lemma classify_absent_certificate_counterexample :
  CDP.certificateSecurityState plainRecord = None
  /\ exists c, classify plainRecord = Normal c
               /\ transportLabel c = lit "Unknown"
               /\ transportLabel c <> lit "N/A".
Proof.
  split; [reflexivity|]. eexists. split; [reflexivity|].
  split; [reflexivity | discriminate].
Qed.




(** C3, at the failing input.  A record with an overall state and every
    field present, whose [validFrom] is the whole number 8640000000001,
    makes [classify] raise a [RangeError]; the handler raises it before it
    writes anything. *)
Theorem classify_far_future_throws :
  CDP.securityState farFutureRecord = Some (lit "secure")
  /\ classify farFutureRecord = Throw RangeError
  /\ forall st, onVisibleSecurityStateChanged farFutureRecord st = (Throw RangeError, st).
Proof.
  assert (H : classify farFutureRecord = Throw RangeError) by reflexivity.
  split; [reflexivity|]. split; [exact H|].
  intros st. now apply handler_classify_Throw.
Qed.

(* ================================================================== *)
(** ** What a page's notifications emit *)
(* ================================================================== *)

(** C7, amended.  The text emitted for the first notification of a page is
    determined by the URL, the record's overall state and classification,
    and the server header ("N/A" when no response carried one): it is the
    empty line, the header line and then, in this order, the separator, the
    upper-cased overall state, the server, the transport, the key exchange,
    the key-exchange group, the cipher, the subject, the issuer, valid-from,
    valid-to, the separator and the verdict.  The handler keeps that text
    in [result] and hands it to the console and, followed by a newline, to
    the log. *)
Theorem first_notification_report (url : jsstring) (server : option jsstring)
    (e : CDP.VisibleSecurityState) (c : Classification) (s : jsstring) :
  classify e = Normal c ->
  CDP.securityState e = Some s ->
  let text := reportText url (toUpperCase s) (or_default server (lit "N/A")) c in
  onVisibleSecurityStateChanged e (stateWithServer url server) =
    (Normal tt,
     {| result := text;
        serverHeader := or_default server (lit "N/A");
        console := [text];
        logFile := [text ++ nl] |}).
Proof.
  intros Hc Hs text.
  rewrite (handler_Normal e c s _ Hc Hs). cbv zeta.
  rewrite stateWithServer_eq. cbn [result serverHeader console logFile app].
  assert (E : (nl ++ linesText [headerLine url])
              ++ reportBlock (toUpperCase s) (or_default server (lit "N/A")) c = text).
  { unfold text, reportText, reportBlock, linesText. cbn [map List.concat].
    rewrite app_nil_r, <- !app_assoc. reflexivity. }
  rewrite E. reflexivity.
Qed.

Lemma first_notification_report_witness :
  console (snd (onVisibleSecurityStateChanged sampleRecord
                  (stateWithServer sampleUrl (Some (lit "nginx")))))
  = [reportText sampleUrl (lit "SECURE") (lit "nginx") sampleClassification].
Proof.
  assert (Hc : classify sampleRecord = Normal sampleClassification)
    by (vm_compute; reflexivity).
  assert (Hs : CDP.securityState sampleRecord = Some (lit "secure")) by reflexivity.
  rewrite (first_notification_report sampleUrl (Some (lit "nginx")) sampleRecord
             sampleClassification (lit "secure") Hc Hs).
  reflexivity.
Defined.

(** C7 as stated fails: the handler appends to [result], so the same
    notification for the same URL and with the same server header emits a
    different text the second time. *)
Lemma repeated_notification_counterexample :
  let st0 := stateWithServer sampleUrl None in
  let st1 := snd (onVisibleSecurityStateChanged sampleRecord st0) in
  let st2 := snd (onVisibleSecurityStateChanged sampleRecord st1) in
  serverHeader st1 = serverHeader st0
  /\ result st1 <> result st0
  /\ exists first second,
       console st2 = [first; second] /\ first <> second.
Proof.
  cbv zeta. split; [reflexivity|]. split.
  - intros H. apply (f_equal (@List.length N)) in H. vm_compute in H. discriminate H.
  - eexists. eexists. split; [vm_compute; reflexivity|].
    intros H. apply (f_equal (@List.length N)) in H. vm_compute in H. discriminate H.
Qed.

(** C6, amended.  Notifications of one page that all classify, with the
    server header unchanged in between, emit texts that accumulate: the
    text for the notification at position [k] is the header followed by
    the blocks of all notifications up to and including that one, so it
    starts with the text emitted before it. *)
Theorem notifications_accumulate (url : jsstring) (server : option jsstring)
    (es : list CDP.VisibleSecurityState) (blocks : list jsstring) :
  map (notificationBlock (or_default server (lit "N/A"))) es = map Some blocks ->
  let header := nl ++ linesText [headerLine url] in
  let st := snd (run (map SecurityStateChanged es) (stateWithServer url server)) in
  fst (run (map SecurityStateChanged es) (stateWithServer url server)) = Normal tt
  /\ console st = accumulated header blocks
  /\ logFile st = map (fun t => t ++ nl) (accumulated header blocks)
  /\ result st = header ++ List.concat blocks
  /\ forall k, (k < List.length es)%nat ->
               nth k (console st) [] = header ++ List.concat (firstn (S k) blocks).
Proof.
  intros H header st.
  assert (Hlen : List.length es = List.length blocks).
  { apply (f_equal (@List.length _)) in H. now rewrite !length_map in H. }
  assert (Hrun := run_notifications es blocks (stateWithServer url server)).
  rewrite stateWithServer_eq in Hrun |- *.
  cbn [result serverHeader console logFile app] in Hrun.
  specialize (Hrun H). subst st. rewrite stateWithServer_eq, Hrun.
  cbn [fst snd result console logFile]. fold header.
  repeat split. intros k Hk. apply accumulated_nth. lia.
Qed.

Lemma notifications_accumulate_witness :
  let st := snd (run [SecurityStateChanged plainRecord; SecurityStateChanged sampleRecord]
                   (stateWithServer sampleUrl None)) in
  nth 1 (console st) [] =
    (nl ++ linesText [headerLine sampleUrl])
    ++ List.concat
         (firstn 2 [reportBlock (lit "NEUTRAL") (lit "N/A")
                      {| protocol := lit "Unknown"; tlsVersion := lit "Unknown";
                         isQUIC := false; keyExchange := lit "N/A";
                         keyExchangeGroup := lit "N/A"; cipher := lit "N/A";
                         subjectName := lit "N/A"; issuer := lit "N/A";
                         validFrom := lit "N/A"; validTo := lit "N/A";
                         pqcDetected := false |};
                    reportBlock (lit "SECURE") (lit "N/A") sampleClassification]).
Proof.
  cbv zeta.
  apply (notifications_accumulate sampleUrl None [plainRecord; sampleRecord]);
    [vm_compute; reflexivity | simpl; lia].
Defined.

(** C6 as stated fails: the text emitted for a notification is not a
    function of that notification, the URL and the server header alone.
    After an earlier notification it differs from the text the same
    notification gives on its own, and it repeats the earlier text. *)
Lemma notification_depends_on_history_counterexample :
  let st0 := stateWithServer sampleUrl None in
  let alone := snd (run [SecurityStateChanged sampleRecord] st0) in
  let after := snd (run [SecurityStateChanged plainRecord;
                         SecurityStateChanged sampleRecord] st0) in
  serverHeader alone = serverHeader after
  /\ nth 0 (console alone) [] <> nth 1 (console after) []
  /\ exists block, nth 1 (console after) [] = nth 0 (console after) [] ++ block
                   /\ block <> [].
Proof.
  cbv zeta. split; [reflexivity|]. split.
  - intros H. apply (f_equal (@List.length N)) in H. vm_compute in H. discriminate H.
  - exists (reportBlock (lit "SECURE") (lit "N/A") sampleClassification).
    split; [vm_compute; reflexivity|].
    intros H. apply (f_equal (@List.length N)) in H. vm_compute in H. discriminate H.
Qed.

(* ================================================================== *)
(** ** [main]: where the URLs come from *)
(* ================================================================== *)

Section Lines.

Lemma str_eqb_nil (s : jsstring) : str_eqb s [] = true <-> s = [].
Proof. destruct s; simpl; split; congruence. Qed.

Lemma trimStart_nil_iff (s : jsstring) :
  trimStart s = [] <-> forallb isWhiteSpace s = true.
Proof.
  induction s as [|c s IH]; simpl; [tauto|].
  destruct (isWhiteSpace c); simpl; [exact IH | split; discriminate].
Qed.

Lemma trimStart_head (s : jsstring) (c : N) (t : jsstring) :
  trimStart s = c :: t -> isWhiteSpace c = false.
Proof.
  induction s as [|x s IH]; simpl; [discriminate|].
  destruct (isWhiteSpace x) eqn:E; [exact IH|].
  intros H; injection H as <- _. exact E.
Qed.

(** A string trims to the empty string exactly when it holds white space
    only. *)
Lemma trim_nil_iff (s : jsstring) :
  trim s = [] <-> forallb isWhiteSpace s = true.
Proof.
  unfold trim, trimEnd. split.
  - intros H. apply (f_equal (@rev N)) in H. rewrite rev_involutive in H.
    cbn [rev] in H. apply trimStart_nil_iff in H.
    rewrite forallb_forall in H.
    destruct (trimStart s) as [|c t] eqn:E.
    + now apply trimStart_nil_iff.
    + apply trimStart_head in E as Hc.
      rewrite (H c) in Hc; [discriminate|]. apply in_rev. rewrite rev_involutive.
      now left.
  - intros H. apply trimStart_nil_iff in H. now rewrite H.
Qed.

Lemma nonBlank_true_iff (line : jsstring) :
  nonBlank line = true <-> exists c, In c line /\ isWhiteSpace c = false.
Proof.
  unfold nonBlank. rewrite negb_true_iff, <- not_true_iff_false, str_eqb_nil,
    trim_nil_iff. split.
  - intros H. induction line as [|c l IH]; [now elim H|].
    simpl in H. destruct (isWhiteSpace c) eqn:E.
    + destruct IH as (x & Hx & Hw); [exact H|]. exists x. split; [now right | exact Hw].
    + exists c. split; [now left | exact E].
  - intros (c & Hin & Hw) H. rewrite forallb_forall in H.
    rewrite (H c Hin) in Hw. discriminate.
Qed.

Lemma nonBlank_trim (line : jsstring) : nonBlank line = true <-> trim line <> [].
Proof.
  unfold nonBlank. rewrite negb_true_iff, <- not_true_iff_false, str_eqb_nil.
  tauto.
Qed.

(** The scan of [split], with the piece begun so far: [cur] holds no line
    feed, and when it ends in a carriage return no line feed follows. *)
Lemma split_lines_from_Lines (n : nat) :
  forall (s cur : jsstring),
    (List.length s <= n)%nat ->
    ~ In 10%N cur ->
    (forall cur' s', cur = 13%N :: cur' -> s <> 10%N :: s') ->
    Lines (rev cur ++ s) (split_lines_from cur s).
Proof.
  induction n as [|n IH]; intros s cur Hn Hcur Hcr.
  - destruct s; [|simpl in Hn; lia]. simpl. rewrite app_nil_r.
    apply Lines_last. now rewrite <- in_rev.
  - destruct s as [|c s']; cbn [split_lines_from].
    + rewrite app_nil_r. apply Lines_last. now rewrite <- in_rev.
    + simpl in Hn. destruct (N.eqb_spec c 10) as [->|Hc].
      * apply (Lines_lf (rev cur) s').
        -- now rewrite <- in_rev.
        -- intros l' E. apply (f_equal (@rev N)) in E.
           rewrite rev_involutive, rev_app_distr in E. cbn in E.
           now apply (Hcr (rev l') s').
        -- apply (IH s' []); [lia | auto | discriminate].
      * assert (Hpush : Lines (rev cur ++ c :: s') (split_lines_from (c :: cur) s')
                        \/ exists s'', c = 13%N /\ s' = 10%N :: s'').
        { destruct (N.eqb_spec c 13) as [->|Hc13].
          - destruct s' as [|d s''].
            + left. replace (rev cur ++ [13%N]) with (rev (13%N :: cur) ++ [])
                by (cbn; now rewrite app_nil_r).
              apply IH; [simpl; lia | | discriminate].
              intros [E|E]; [discriminate E | contradiction].
            + destruct (N.eqb_spec d 10) as [->|Hd]; [right; eauto|].
              left. replace (rev cur ++ 13%N :: d :: s'')
                with (rev (13%N :: cur) ++ d :: s'')
                by (cbn; now rewrite <- app_assoc).
              apply IH; [simpl in *; lia | |].
              * intros [E|E]; [discriminate E | contradiction].
              * intros cur' t _ E. injection E as E _. contradiction.
          - left. replace (rev cur ++ c :: s') with (rev (c :: cur) ++ s')
              by (cbn; now rewrite <- app_assoc).
            apply IH; [lia | |].
            + intros [E|E]; [now subst c | contradiction].
            + intros cur' t E. injection E as E _. now subst c. }
        destruct s' as [|d s''].
        -- destruct Hpush as [H | (t & _ & E)]; [exact H | discriminate E].
        -- destruct ((c =? 13) && (d =? 10))%N eqn:E.
           ++ apply andb_true_iff in E as [E1 E2].
              apply N.eqb_eq in E1, E2. subst c d.
              apply (Lines_crlf (rev cur) s'').
              ** now rewrite <- in_rev.
              ** apply (IH s'' []); [simpl in *; lia | auto | discriminate].
           ++ destruct Hpush as [H | (t & -> & Et)]; [exact H|].
              injection Et as -> _. discriminate E.
Qed.

(** [split] returns the lines of the content. *)
Lemma split_lines_Lines (s : jsstring) : Lines s (split_lines s).
Proof.
  apply (split_lines_from_Lines (List.length s) s []); [lia | auto | discriminate].
Qed.

(** The first occurrence of a code unit splits a string in one way. *)
Lemma first_occurrence_unique (x : N) (l l' r r' : jsstring) :
  ~ In x l -> ~ In x l' -> l ++ x :: r = l' ++ x :: r' -> l = l' /\ r = r'.
Proof.
  revert l'. induction l as [|a l IH]; intros [|b l'] Hl Hl' E; cbn in E.
  - injection E as E. now split.
  - injection E as E _. subst b. elim Hl'. now left.
  - injection E as E _. subst a. elim Hl. now left.
  - injection E as -> E. destruct (IH l') as [-> ->]; auto.
    + intros H. apply Hl. now right.
    + intros H. apply Hl'. now right.
Qed.

(** A content has one list of lines. *)
Lemma Lines_functional (s : jsstring) (ls : list jsstring) :
  Lines s ls -> forall ls', Lines s ls' -> ls = ls'.
Proof.
  induction 1 as [l Hl | l rest ls Hl Hcr Hrest IH | l rest ls Hl Hrest IH];
    intros ls' H'; inversion H' as [l' Hl' E | l' rest' ls0 Hl' Hcr' Hrest' E
                                  | l' rest' ls0 Hl' Hrest' E]; subst.
  - reflexivity.
  - elim Hl. apply in_or_app. right. now left.
  - elim Hl. apply in_or_app. right. right. now left.
  - elim Hl'. apply in_or_app. right. now left.
  - apply first_occurrence_unique in E as [-> ->]; auto.
    f_equal. now apply IH.
  - replace (l' ++ 13%N :: 10%N :: rest') with ((l' ++ [13%N]) ++ 10%N :: rest') in E
      by now rewrite <- app_assoc.
    apply first_occurrence_unique in E as [E _]; auto.
    + symmetry in E. now apply Hcr in E.
    + intros H. apply in_app_or in H as [H | [H | []]]; [auto | discriminate H].
  - elim Hl'. apply in_or_app. right. right. now left.
  - replace (l ++ 13%N :: 10%N :: rest) with ((l ++ [13%N]) ++ 10%N :: rest) in E
      by now rewrite <- app_assoc.
    apply first_occurrence_unique in E as [E _]; auto.
    + now apply Hcr' in E.
    + intros H. apply in_app_or in H as [H | [H | []]]; [auto | discriminate H].
  - replace (l ++ 13%N :: 10%N :: rest) with ((l ++ [13%N]) ++ 10%N :: rest) in E
      by now rewrite <- app_assoc.
    replace (l' ++ 13%N :: 10%N :: rest') with ((l' ++ [13%N]) ++ 10%N :: rest') in E
      by now rewrite <- app_assoc.
    apply first_occurrence_unique in E as [E ->].
    + apply app_inj_tail in E as [-> _]. f_equal. now apply IH.
    + intros H. apply in_app_or in H as [H | [H | []]]; [auto | discriminate H].
    + intros H. apply in_app_or in H as [H | [H | []]]; [auto | discriminate H].
Qed.

End Lines.

Lemma pushSpread_cases (maxArguments : nat) (urls items : list jsstring) :
  ((List.length items <= maxArguments)%nat
   /\ pushSpread maxArguments urls items = Normal (urls ++ items))
  \/ ((maxArguments < List.length items)%nat
      /\ pushSpread maxArguments urls items = Throw RangeError).
Proof.
  unfold pushSpread. destruct (Nat.leb_spec (List.length items) maxArguments); auto.
Qed.

(** What [resolveUrls] does with a single argument that names a file. *)
Lemma resolveUrls_file (maxArguments : nat) (path content : jsstring)
    (fs : FileSystem) :
  fs path = File content ->
  resolveUrls maxArguments [path] fs
  = pushSpread maxArguments [] (filter nonBlank (split_lines content)).
Proof.
  intros Hfs. unfold resolveUrls, existsSync, readFileSync.
  cbn [List.length Nat.eqb nth andb]. rewrite Hfs. reflexivity.
Qed.

(** C8, at the failing input.  When the file holds more non-blank lines
    than a call can take arguments, the spread of line 166 raises a
    [RangeError]: [main] ends there, it neither goes on to check the lines
    as URLs nor prints the usage message. *)
Theorem file_urls_spread_overflow (maxArguments : nat) (path content : jsstring)
    (fs : FileSystem) :
  fs path = File content ->
  (maxArguments < List.length (filter nonBlank (split_lines content)))%nat ->
  resolveUrls maxArguments [path] fs = Throw RangeError
  /\ main maxArguments [path] fs = Throw RangeError.
Proof.
  intros Hfs Hmany.
  assert (Hres : resolveUrls maxArguments [path] fs = Throw RangeError).
  { rewrite (resolveUrls_file maxArguments path content fs Hfs).
    destruct (pushSpread_cases maxArguments [] (filter nonBlank (split_lines content)))
      as [[Hle _] | [_ H]]; [lia | exact H]. }
  split; [exact Hres|]. unfold main. now rewrite Hres.
Qed.

Lemma file_urls_spread_overflow_witness :
  main sampleLimit [lit "long.txt"] sampleFs = Throw RangeError.
Proof.
  assert (Hfs : sampleFs (lit "long.txt") = File longFile)
    by (vm_compute; reflexivity).
  destruct (file_urls_spread_overflow sampleLimit (lit "long.txt") longFile sampleFs Hfs)
    as [_ H]; [|exact H].
  apply Nat.ltb_lt. vm_compute. reflexivity.
Defined.

(** X21.  When the single argument names a file with no more non-blank
    lines than a call can take arguments, the URLs are the lines of its
    content ([split] returns the one list of lines the content has) that
    do not trim to the empty string, that is the lines that hold a code
    unit other than white space, in the order of the file; when there is
    no such line [main] prints the usage message and exits with code 1. *)
Theorem file_urls_are_nonblank_lines (maxArguments : nat) (path content : jsstring)
    (fs : FileSystem) :
  fs path = File content ->
  let urls := filter (fun line => negb (str_eqb (trim line) [])) (split_lines content) in
  (List.length urls <= maxArguments)%nat ->
  resolveUrls maxArguments [path] fs = Normal urls
  /\ (forall ls, Lines content ls <-> ls = split_lines content)
  /\ (forall u, In u urls <-> In u (split_lines content) /\ trim u <> [])
  /\ (forall u, trim u <> [] <-> exists c, In c u /\ isWhiteSpace c = false)
  /\ (urls = [] -> main maxArguments [path] fs = Normal (UsageExit usage 1))
  /\ (urls <> [] -> main maxArguments [path] fs = Normal (CheckSites urls)).
Proof.
  intros Hfs urls Hle.
  assert (Hres : resolveUrls maxArguments [path] fs = Normal urls).
  { rewrite (resolveUrls_file maxArguments path content fs Hfs).
    destruct (pushSpread_cases maxArguments [] (filter nonBlank (split_lines content)))
      as [[_ H] | [Hlt _]]; [exact H|].
    unfold urls in Hle. fold nonBlank in Hlt. unfold nonBlank in Hlt. lia. }
  split; [exact Hres|]. split.
  { intros ls. split.
    - intros H. symmetry. apply (Lines_functional content _ (split_lines_Lines content) ls H).
    - intros ->. apply split_lines_Lines. }
  split; [|split; [|split]].
  - intros u. unfold urls. rewrite filter_In. fold (nonBlank u).
    now rewrite nonBlank_trim.
  - intros u. now rewrite <- nonBlank_trim, nonBlank_true_iff.
  - intros E. unfold main. rewrite Hres, E. reflexivity.
  - intros E. unfold main. rewrite Hres. cbn [bind].
    destruct urls; [contradiction | reflexivity].
Qed.

Lemma file_urls_are_nonblank_lines_witness :
  resolveUrls sampleLimit [lit "urls.txt"] sampleFs
  = Normal [lit "https://a.example"; lit "https://b.example"].
Proof.
  assert (Hfs : sampleFs (lit "urls.txt") = File urlsFile)
    by (vm_compute; reflexivity).
  destruct (file_urls_are_nonblank_lines sampleLimit (lit "urls.txt") urlsFile sampleFs Hfs)
    as [Hres _].
  - apply Nat.leb_le. vm_compute. reflexivity.
  - rewrite Hres. vm_compute. reflexivity.
Defined.

(** C10.  With two or more arguments every argument is a URL to check,
    whatever the file system holds.  The URLs differ from the arguments
    only when there is exactly one argument and it names something that
    exists: for a file the URLs are read from it (its non-blank lines, when
    they are no more than a call can take arguments; a [RangeError]
    otherwise), and a single argument that names nothing is itself the
    URL. *)
Theorem file_mode_needs_single_argument (maxArguments : nat)
    (args : list jsstring) (fs : FileSystem) :
  ((2 <= List.length args)%nat ->
     resolveUrls maxArguments args fs = Normal args
     /\ main maxArguments args fs = Normal (CheckSites args))
  /\ (resolveUrls maxArguments args fs <> Normal args ->
        exists path, args = [path] /\ fs path <> Missing)
  /\ (forall path content, args = [path] -> fs path = File content ->
        let lines := filter nonBlank (split_lines content) in
        ((List.length lines <= maxArguments)%nat ->
           resolveUrls maxArguments args fs = Normal lines)
        /\ ((maxArguments < List.length lines)%nat ->
              resolveUrls maxArguments args fs = Throw RangeError))
  /\ (forall path, args = [path] -> fs path = Missing ->
        resolveUrls maxArguments args fs = Normal [path]).
Proof.
  split; [|split; [|split]].
  - intros H. assert (Hres : resolveUrls maxArguments args fs = Normal args).
    { unfold resolveUrls. destruct args as [|a [|b args]]; simpl in H; try lia.
      reflexivity. }
    split; [exact Hres|]. unfold main. rewrite Hres. cbn [bind].
    destruct args; [simpl in H; lia | reflexivity].
  - unfold resolveUrls. destruct args as [|a [|b args]]; cbn [List.length Nat.eqb andb nth].
    + intros H. now elim H.
    + unfold existsSync. intros H. exists a. split; [reflexivity|].
      intros E. rewrite E in H. now elim H.
    + intros H. now elim H.
  - intros path content -> Hfs lines.
    rewrite (resolveUrls_file maxArguments path content fs Hfs). fold lines.
    destruct (pushSpread_cases maxArguments [] lines) as [[Hle H] | [Hlt H]];
      rewrite H; split; intros Hc; try reflexivity; lia.
  - intros path -> Hfs. unfold resolveUrls, existsSync.
    cbn [List.length Nat.eqb andb nth]. rewrite Hfs. reflexivity.
Qed.

Lemma file_mode_needs_single_argument_witness :
  main sampleLimit [lit "urls.txt"; lit "https://c.example"] sampleFs
  = Normal (CheckSites [lit "urls.txt"; lit "https://c.example"])
  /\ main sampleLimit [lit "urls.txt"] sampleFs
     = Normal (CheckSites [lit "https://a.example"; lit "https://b.example"]).
Proof.
  split; [|vm_compute; reflexivity].
  destruct (file_mode_needs_single_argument sampleLimit
              [lit "urls.txt"; lit "https://c.example"] sampleFs) as [Hmany _].
  apply Hmany. simpl. lia.
Defined.

(* ================================================================== *)
(** ** Further properties of [formatTimestamp] *)
(* ================================================================== *)

Section TimestampMore.
Import JSDate.
Local Open Scope Z_scope.

(** X1.  [formatTimestamp] raises exactly on a whole number of seconds of
    magnitude above 8640000000000, and what it raises is a [RangeError];
    on every other input it returns. *)
Theorem formatTimestamp_throws_iff (v : jsnum) (x : Exception) :
  formatTimestamp v = Throw x
  <-> x = RangeError /\ exists z, v = JInt z /\ maxSeconds < Z.abs z.
Proof.
  split.
  - intros H. destruct v as [| | |z]; try discriminate H.
    destruct (Z.eq_dec z 0) as [->|Hnz]; [discriminate H|].
    destruct (Z_le_gt_dec (Z.abs z) maxSeconds) as [Hin|Hout].
    + destruct (formatTimestamp_in_range z Hnz) as (str & Hs & _); [lia|].
      rewrite Hs in H. discriminate H.
    + rewrite formatTimestamp_out_of_range in H by lia.
      injection H as <-. split; [reflexivity|]. exists z. split; [reflexivity | lia].
  - intros (-> & z & -> & Hz). now apply formatTimestamp_out_of_range.
Qed.

Lemma app_inj_length {A : Type} (a a' b b' : list A) :
  List.length a = List.length a' -> a ++ b = a' ++ b' -> a = a' /\ b = b'.
Proof.
  revert a'. induction a as [|x a IH]; intros [|x' a'] Hlen E;
    try discriminate Hlen.
  - now split.
  - cbn in Hlen, E. injection Hlen as Hlen. injection E as -> E.
    destruct (IH a' Hlen E) as [-> ->]. now split.
Qed.

(** Numbers below [10 ^ w] have different digit strings. *)
Lemma digits_inj (w : nat) :
  forall n n', 0 <= n < 10 ^ Z.of_nat w -> 0 <= n' < 10 ^ Z.of_nat w ->
               digits w n = digits w n' -> n = n'.
Proof.
  induction w as [|w IH]; intros n n' Hn Hn' E.
  - cbn in Hn, Hn'. lia.
  - cbn [digits] in E. apply app_inj_tail in E as [E Elast].
    rewrite Nat2Z.inj_succ, Z.pow_succ_r in Hn, Hn' by lia.
    assert (Hq : n / 10 = n' / 10).
    { apply IH; [| | exact E]; Z.div_mod_to_equations; lia. }
    assert (Hr : n mod 10 = n' mod 10).
    { apply N.add_cancel_l in Elast.
      apply (f_equal Z.of_N) in Elast.
      rewrite !Z2N.id in Elast by (apply Z.mod_pos_bound; lia). exact Elast. }
    Z.div_mod_to_equations. lia.
Qed.

Lemma yearString_inj (y y' : Z) :
  Z.abs y <= 999999 -> Z.abs y' <= 999999 ->
  yearString y = yearString y' -> y = y'.
Proof.
  intros Hy Hy'. unfold yearString.
  destruct ((0 <=? y) && (y <=? 9999)) eqn:E;
    destruct ((0 <=? y') && (y' <=? 9999)) eqn:E'; intros H.
  - apply andb_true_iff in E as [E1 E2], E' as [E1' E2'].
    apply Z.leb_le in E1, E2, E1', E2'.
    apply (digits_inj 4) in H; [exact H | cbn; lia | cbn; lia].
  - apply (f_equal (@List.length N)) in H.
    rewrite length_app, !digits_length in H. destruct (y' <? 0); cbn in H; lia.
  - apply (f_equal (@List.length N)) in H.
    rewrite length_app, !digits_length in H. destruct (y <? 0); cbn in H; lia.
  - apply andb_false_iff in E, E'.
    rewrite !Z.leb_gt in E, E'.
    destruct (Z.ltb_spec y 0), (Z.ltb_spec y' 0);
      apply app_inj_length in H as [Hsign H]; try reflexivity;
      try discriminate Hsign;
      apply (digits_inj 6) in H; cbn; lia.
Qed.

Lemma DaysInMonth_le_31 (y mo : Z) : 0 <= mo <= 11 -> DaysInMonth y mo <= 31.
Proof.
  intros Hmo. unfold DaysInMonth.
  assert (Em : mo = 0 \/ mo = 1 \/ mo = 2 \/ mo = 3 \/ mo = 4 \/ mo = 5 \/ mo = 6
               \/ mo = 7 \/ mo = 8 \/ mo = 9 \/ mo = 10 \/ mo = 11) by lia.
  destruct (DaysInYear_cases y) as [-> | ->];
    repeat (destruct Em as [-> | Em]); try subst mo; vm_compute; discriminate.
Qed.

(** The years of the time values. *)
Lemma YearFromTime_bounds (t : Z) :
  Z.abs t <= maxTime -> -271821 <= YearFromTime t <= 275760.
Proof.
  intros Ht.
  pose proof (YearFromTime_largest t (-271821)) as Hlo.
  pose proof (YearFromTime_largest t 275761) as Hhi.
  change (TimeFromYear (-271821)) with (-8640009417600000) in Hlo.
  change (TimeFromYear 275761) with 8640009504000000 in Hhi.
  unfold maxTime in Ht. lia.
Qed.

(** Fields of the sizes that a date has print differently. *)
Lemma isoFormat_inj (y mo d h mi s ms y' mo' d' h' mi' s' ms' : Z) :
  Z.abs y <= 999999 -> Z.abs y' <= 999999 ->
  0 <= mo <= 11 -> 0 <= mo' <= 11 ->
  0 <= d <= 31 -> 0 <= d' <= 31 ->
  0 <= h < 24 -> 0 <= h' < 24 ->
  0 <= mi < 60 -> 0 <= mi' < 60 ->
  0 <= s < 60 -> 0 <= s' < 60 ->
  0 <= ms < 1000 -> 0 <= ms' < 1000 ->
  isoFormat y mo d h mi s ms = isoFormat y' mo' d' h' mi' s' ms' ->
  y = y' /\ mo = mo' /\ d = d' /\ h = h' /\ mi = mi' /\ s = s' /\ ms = ms'.
Proof.
  intros Hy Hy' Hmo Hmo' Hd Hd' Hh Hh' Hmi Hmi' Hs Hs' Hms Hms' E.
  assert (Hlen : List.length (yearString y) = List.length (yearString y')).
  { apply (f_equal (@List.length N)) in E. unfold isoFormat in E.
    rewrite !length_app, !digits_length in E. lia. }
  unfold isoFormat in E.
  apply app_inj_length in E as [Ey E]; [|exact Hlen].
  apply app_inj_length in E as [_ E]; [|reflexivity].
  apply app_inj_length in E as [Emo E]; [|now rewrite !digits_length].
  apply app_inj_length in E as [_ E]; [|reflexivity].
  apply app_inj_length in E as [Ed E]; [|now rewrite !digits_length].
  apply app_inj_length in E as [_ E]; [|reflexivity].
  apply app_inj_length in E as [Eh E]; [|now rewrite !digits_length].
  apply app_inj_length in E as [_ E]; [|reflexivity].
  apply app_inj_length in E as [Emi E]; [|now rewrite !digits_length].
  apply app_inj_length in E as [_ E]; [|reflexivity].
  apply app_inj_length in E as [Es E]; [|now rewrite !digits_length].
  apply app_inj_length in E as [_ E]; [|reflexivity].
  apply app_inj_length in E as [Ems _]; [|now rewrite !digits_length].
  apply yearString_inj in Ey; [|assumption..].
  apply (digits_inj 2) in Emo, Ed, Eh, Emi, Es; cbn; try lia.
  apply (digits_inj 3) in Ems; cbn; try lia.
Qed.

(** X2.  Within the range of dates, two non-zero whole seconds print as
    the same string only when they are the same second: the timestamp can
    be read back from what [formatTimestamp] returns for it. *)
Theorem formatTimestamp_injective (t t' : Z) (str str' : jsstring) :
  t <> 0 -> t' <> 0 ->
  Z.abs t <= maxSeconds -> Z.abs t' <= maxSeconds ->
  formatTimestamp (JInt t) = Normal str ->
  formatTimestamp (JInt t') = Normal str' ->
  (str = str' <-> t = t').
Proof.
  intros Ht Ht' Hr Hr' H H'.
  split; [|intros <-; congruence]. intros <-.
  assert (Hclip : forall z, Z.abs z <= maxSeconds -> z <> 0 ->
            formatTimestamp (JInt z) = toISOString (Some (z * 1000))).
  { intros z Hz Hnz. unfold formatTimestamp, truthy_num.
    destruct (Z.eqb_spec z 0); [contradiction|].
    unfold negb, times, newDate, TimeClip.
    destruct (Z.ltb_spec maxTime (Z.abs (z * 1000))); [|reflexivity].
    unfold maxSeconds, maxTime in *. lia. }
  rewrite Hclip in H, H' by assumption. unfold toISOString in H, H'.
  rewrite <- H' in H. injection H as E.
  destruct (fields_of_time (t * 1000)) as [(Hmo & Hd & Hh & Hmi & Hs & Hms) Hof].
  destruct (fields_of_time (t' * 1000)) as [(Hmo' & Hd' & Hh' & Hmi' & Hs' & Hms') Hof'].
  pose proof (DaysInMonth_le_31 (YearFromTime (t * 1000)) _ Hmo).
  pose proof (DaysInMonth_le_31 (YearFromTime (t' * 1000)) _ Hmo').
  assert (Hy : -271821 <= YearFromTime (t * 1000) <= 275760)
    by (apply YearFromTime_bounds; unfold maxSeconds, maxTime in *; lia).
  assert (Hy' : -271821 <= YearFromTime (t' * 1000) <= 275760)
    by (apply YearFromTime_bounds; unfold maxSeconds, maxTime in *; lia).
  apply isoFormat_inj in E; try lia.
  destruct E as (Ey & Emo & Ed & Eh & Emi & Es & Ems).
  rewrite Ey, Emo, Ed, Eh, Emi, Es, Ems in Hof. lia.
Qed.

Lemma formatTimestamp_injective_witness :
  lit "2024-01-01T00:00:00.000Z" <> lit "2024-01-01T00:00:01.000Z".
Proof.
  intros E.
  apply (formatTimestamp_injective 1704067200 1704067201
           (lit "2024-01-01T00:00:00.000Z") (lit "2024-01-01T00:00:01.000Z")) in E;
    try (unfold maxSeconds; lia); reflexivity.
Defined.

End TimestampMore.

(* ================================================================== *)
(** ** Further properties of the classification *)
(* ================================================================== *)

Section ClassifyMore.

Lemma or_default_not_nil (v : option jsstring) (d : jsstring) :
  d <> [] -> or_default v d <> [].
Proof. destruct v as [[|c s]|]; cbn; intros H; congruence. Qed.

Lemma formatTimestamp_not_nil (v : jsnum) (str : jsstring) :
  formatTimestamp v = Normal str -> str <> [].
Proof.
  unfold formatTimestamp. destruct (truthy_num v); cbn [negb].
  - destruct (JSDate.newDate _) as [t|]; cbn [JSDate.toISOString]; [|discriminate].
    intros H; injection H as <-. intros E.
    apply (f_equal (@List.length N)) in E.
    pose proof (isoFormat_length (JSDate.YearFromTime t) (JSDate.MonthFromTime t)
                  (JSDate.DateFromTime t) (JSDate.HourFromTime t)
                  (JSDate.MinFromTime t) (JSDate.SecFromTime t) (JSDate.msFromTime t)).
    cbn in E. lia.
  - intros H; injection H as <-. discriminate.
Qed.

(** X3.  No value of a report is blank: whatever the record holds or
    lacks, every label and both dates of a classification are non-empty
    strings. *)
Theorem classification_labels_nonempty (e : CDP.VisibleSecurityState)
    (c : Classification) :
  classify e = Normal c ->
  transportLabel c <> [] /\ keyExchange c <> [] /\ keyExchangeGroup c <> []
  /\ cipher c <> [] /\ subjectName c <> [] /\ issuer c <> []
  /\ validFrom c <> [] /\ validTo c <> [].
Proof.
  intros H. apply classify_Normal in H. cbv zeta in H.
  destruct H as (_ & Ht & Hq & Hk & Hg & Hc & Hs & Hi & Hf & Hv & _).
  unfold transportLabel. rewrite Ht, Hk, Hg, Hc, Hs, Hi.
  repeat split; try (apply or_default_not_nil; discriminate).
  - destruct (isQUIC c); [discriminate | apply or_default_not_nil; discriminate].
  - apply or_default_not_nil. now destruct (includes _ _).
  - exact (formatTimestamp_not_nil _ _ Hf).
  - exact (formatTimestamp_not_nil _ _ Hv).
Qed.

Lemma classification_labels_nonempty_witness :
  keyExchange sampleClassification <> [].
Proof.
  assert (H : classify sampleRecord = Normal sampleClassification)
    by (vm_compute; reflexivity).
  destruct (classification_labels_nonempty sampleRecord sampleClassification H)
    as (_ & Hk & _).
  exact Hk.
Defined.

(** X4.  The verdict looks at the key-exchange group and at nothing else:
    two records with the same [keyExchangeGroup] property get the same
    [pqcDetected], whatever their protocol, cipher, certificate or overall
    state are. *)
Theorem pqcDetected_depends_on_group_only (e e' : CDP.VisibleSecurityState)
    (c c' : Classification) :
  classify e = Normal c ->
  classify e' = Normal c' ->
  CDP.keyExchangeGroup (certStateOf e) = CDP.keyExchangeGroup (certStateOf e') ->
  pqcDetected c = pqcDetected c'.
Proof.
  intros H H' E. apply classify_Normal in H, H'. cbv zeta in H, H'.
  destruct H as (_ & _ & _ & _ & Hg & _ & _ & _ & _ & _ & Hp).
  destruct H' as (_ & _ & _ & _ & Hg' & _ & _ & _ & _ & _ & Hp').
  now rewrite Hp, Hp', Hg, Hg', E.
Qed.

Lemma pqcDetected_depends_on_group_only_witness :
  pqcDetected quicClassification = pqcDetected sampleClassification.
Proof.
  assert (H : classify sampleRecord = Normal sampleClassification)
    by (vm_compute; reflexivity).
  assert (H' : classify quicRecord = Normal quicClassification)
    by (vm_compute; reflexivity).
  apply (pqcDetected_depends_on_group_only quicRecord sampleRecord
           quicClassification sampleClassification H' H).
  reflexivity.
Defined.

(** X5.  [classify] raises exactly when [validFrom] or [validTo] is a
    whole number of seconds of magnitude above 8640000000000, and then a
    [RangeError]; no other property of a record, present or absent, makes
    it raise. *)
Theorem classify_throws_iff (e : CDP.VisibleSecurityState) (x : Exception) :
  classify e = Throw x
  <-> x = RangeError
      /\ (~ timestampInRange (CDP.validFrom (certStateOf e))
          \/ ~ timestampInRange (CDP.validTo (certStateOf e))).
Proof.
  assert (Hr : forall v, timestampInRange v \/
                         (~ timestampInRange v /\ formatTimestamp v = Throw RangeError)).
  { intros [| | |z]; cbn; auto.
    destruct (Z_le_gt_dec (Z.abs z) maxSeconds); [left; lia | right].
    split; [lia | apply formatTimestamp_out_of_range; lia]. }
  unfold classify. fold (certStateOf e).
  destruct (Hr (CDP.validFrom (certStateOf e))) as [Hf | [Hf Ef]].
  - apply formatTimestamp_returns in Hf as Ef. destruct Ef as [vf Ef].
    rewrite Ef. cbn [bind].
    destruct (Hr (CDP.validTo (certStateOf e))) as [Hv | [Hv Ev]].
    + apply formatTimestamp_returns in Hv as Ev. destruct Ev as [vt Ev].
      rewrite Ev. cbn [bind]. split; [discriminate | tauto].
    + rewrite Ev. cbn [bind]. split.
      * intros H; injection H as <-. auto.
      * now intros [-> _].
  - rewrite Ef. cbn [bind]. split.
    + intros H; injection H as <-. auto.
    + now intros [-> _].
Qed.

(** X6.  The key exchange shown is the record's [keyExchange] when that
    is present and not empty; otherwise it is "Handled by QUIC" when the
    protocol contains "QUIC" and "N/A" when it does not. *)
Theorem keyExchange_label_cases (e : CDP.VisibleSecurityState) (c : Classification) :
  classify e = Normal c ->
  let k := CDP.keyExchange (certStateOf e) in
  let p := or_default (CDP.protocol (certStateOf e)) (lit "Unknown") in
  (forall s, k = Some s -> s <> [] -> keyExchange c = s)
  /\ (k = None \/ k = Some [] ->
      (substring (lit "QUIC") p -> keyExchange c = lit "Handled by QUIC")
      /\ (~ substring (lit "QUIC") p -> keyExchange c = lit "N/A")).
Proof.
  intros H k p. apply classify_Normal in H. cbv zeta in H.
  destruct H as (_ & _ & _ & Hk & _). fold k p in Hk. rewrite Hk. clear Hk.
  split.
  - intros s -> Hs. destruct s; [contradiction | reflexivity].
  - intros Habs. split; intros Hq.
    + apply includes_true_iff in Hq. rewrite Hq. now destruct Habs as [-> | ->].
    + apply includes_false_iff in Hq. rewrite Hq. now destruct Habs as [-> | ->].
Qed.

Lemma keyExchange_label_cases_witness :
  keyExchange quicClassification = lit "Handled by QUIC".
Proof.
  assert (H : classify quicRecord = Normal quicClassification)
    by (vm_compute; reflexivity).
  destruct (keyExchange_label_cases quicRecord quicClassification H) as [_ Habsent].
  destruct Habsent as [Hquic _]; [now left|].
  apply Hquic. apply includes_true_iff. reflexivity.
Defined.

End ClassifyMore.

(* ================================================================== *)
(** ** Further properties of the handlers *)
(* ================================================================== *)

Section HandlersMore.

(** The three ways a notification can go. *)
Lemma handler_cases (e : CDP.VisibleSecurityState) (st : PageState) :
  (exists x, classify e = Throw x
             /\ onVisibleSecurityStateChanged e st = (Throw x, st))
  \/ (exists c, classify e = Normal c /\ CDP.securityState e = None
                /\ onVisibleSecurityStateChanged e st =
                     (Throw TypeError,
                      {| result := result st ++ separator;
                         serverHeader := serverHeader st;
                         console := console st;
                         logFile := logFile st |}))
  \/ (exists c s, classify e = Normal c /\ CDP.securityState e = Some s
                  /\ onVisibleSecurityStateChanged e st =
                       (Normal tt,
                        {| result := result st
                                     ++ reportBlock (toUpperCase s) (serverHeader st) c;
                           serverHeader := serverHeader st;
                           console := console st
                                      ++ [result st
                                          ++ reportBlock (toUpperCase s) (serverHeader st) c];
                           logFile := logFile st
                                      ++ [(result st
                                           ++ reportBlock (toUpperCase s) (serverHeader st) c)
                                          ++ nl] |})).
Proof.
  destruct (classify e) as [c|x] eqn:Hc.
  - destruct (CDP.securityState e) as [s|] eqn:Hs.
    + right. right. exists c, s. repeat split. apply (handler_Normal e c s st Hc Hs).
    + right. left. exists c. repeat split. apply (handler_no_state e c st Hc Hs).
  - left. exists x. split; [reflexivity|]. now apply handler_classify_Throw.
Qed.

(** A run of events in two parts. *)
Lemma run_app (evs evs' : list PageEvent) (st : PageState) :
  run (evs ++ evs') st =
    match run evs st with
    | (Normal _, st') => run evs' st'
    | (Throw x, st') => (Throw x, st')
    end.
Proof.
  revert st. induction evs as [|ev evs IH]; intros st; [reflexivity|].
  cbn [app run]. unfold mbind.
  destruct (dispatch ev st) as [[[]|x] st']; [apply IH | reflexivity].
Qed.

(** X7.  Whatever events a page delivers, and whether or not a handler
    ends in an exception, the log file receives exactly the texts printed
    on the console, each followed by one newline, in the same order. *)
Theorem log_mirrors_console (url : jsstring) (evs : list PageEvent) :
  let st := snd (run evs (initialState url)) in
  logFile st = map (fun t => t ++ nl) (console st).
Proof.
  cbv zeta.
  assert (G : forall evs st, logFile st = map (fun t => t ++ nl) (console st) ->
            logFile (snd (run evs st))
            = map (fun t => t ++ nl) (console (snd (run evs st)))).
  { clear evs. induction evs as [|ev evs IH]; intros st Hst; [exact Hst|].
    cbn [run]. unfold mbind.
    destruct ev as [e|server]; cbn [dispatch].
    - destruct (handler_cases e st)
        as [(x & _ & ->) | [(c & _ & _ & ->) | (c & s & _ & _ & ->)]].
      + exact Hst.
      + exact Hst.
      + apply IH. cbn [logFile console]. rewrite map_app, Hst. reflexivity.
    - rewrite onResponse_state. apply IH. exact Hst. }
  apply G. reflexivity.
Qed.

Lemma accumulated_app (pre : jsstring) (bs bs' : list jsstring) :
  accumulated pre (bs ++ bs') =
    accumulated pre bs ++ accumulated (pre ++ List.concat bs) bs'.
Proof.
  revert pre. induction bs as [|b bs IH]; intros pre; cbn.
  - now rewrite app_nil_r.
  - rewrite IH, <- app_assoc. reflexivity.
Qed.

Lemma reportBlock_not_nil (state server : jsstring) (c : Classification) :
  reportBlock state server c <> [].
Proof. discriminate. Qed.

(** While no handler has raised, [result] is the header and the blocks so
    far, and the console holds the texts they gave one after the other. *)
Lemma run_accumulates (pre : jsstring) (evs : list PageEvent) :
  forall (st : PageState) (bs : list jsstring),
    result st = pre ++ List.concat bs ->
    console st = accumulated pre bs ->
    Forall (fun b => b <> []) bs ->
    exists bs',
      console (snd (run evs st)) = accumulated pre (bs ++ bs')
      /\ Forall (fun b => b <> []) (bs ++ bs')
      /\ (fst (run evs st) = Normal tt ->
            result (snd (run evs st)) = pre ++ List.concat (bs ++ bs')
            /\ List.length bs'
               = List.length (filter isNotification evs)).
Proof.
  induction evs as [|ev evs IH]; intros st bs Hres Hcon Hne.
  - exists []. rewrite app_nil_r. cbn. auto.
  - cbn [run]. unfold mbind. destruct ev as [e|server]; cbn [dispatch].
    + destruct (handler_cases e st)
        as [(x & _ & ->) | [(c & _ & _ & ->) | (c & s & _ & _ & ->)]].
      * exists []. rewrite app_nil_r. cbn [fst snd console].
        split; [exact Hcon|]. split; [exact Hne|]. intros H; discriminate H.
      * exists []. rewrite app_nil_r. cbn [fst snd console].
        split; [exact Hcon|]. split; [exact Hne|]. intros H; discriminate H.
      * assert (Hb : reportBlock (toUpperCase s) (serverHeader st) c <> [])
          by apply reportBlock_not_nil.
        revert Hb. generalize (reportBlock (toUpperCase s) (serverHeader st) c).
        intros b Hb.
        destruct (IH {| result := result st ++ b;
                        serverHeader := serverHeader st;
                        console := console st ++ [result st ++ b];
                        logFile := logFile st ++ [(result st ++ b) ++ nl] |}
                     (bs ++ [b])) as (bs' & Hc' & Hne' & Hok).
        -- cbn [result]. rewrite Hres, concat_app. cbn [List.concat].
           now rewrite app_nil_r, app_assoc.
        -- cbn [console]. rewrite Hcon, accumulated_app, Hres. reflexivity.
        -- apply Forall_app. split; [exact Hne|]. now constructor.
        -- exists (b :: bs'). rewrite <- (app_assoc bs [b] bs') in Hc', Hne', Hok.
           cbn [app] in Hc', Hne', Hok.
           split; [exact Hc'|]. split; [exact Hne'|].
           intros H. destruct (Hok H) as [Hr Hl]. split; [exact Hr|].
           cbn [filter isNotification List.length]. now rewrite Hl.
    + rewrite onResponse_state.
      destruct (IH {| result := result st;
                      serverHeader := or_default server (serverHeader st);
                      console := console st;
                      logFile := logFile st |} bs Hres Hcon Hne) as (bs' & H).
      exists bs'. exact H.
Qed.

Lemma Forall_firstn_skipn {A : Type} (P : A -> Prop) (n : nat) (l : list A) :
  Forall P l -> Forall P (firstn n l) /\ Forall P (skipn n l).
Proof.
  intros H. rewrite <- (firstn_skipn n l) in H. now apply Forall_app in H.
Qed.

Lemma firstn_plus {A : Type} (n k : nat) :
  forall l : list A, firstn (n + k) l = firstn n l ++ firstn k (skipn n l).
Proof.
  induction n as [|n IH]; intros [|x l]; cbn; try reflexivity.
  - now rewrite firstn_nil.
  - now rewrite IH.
Qed.

Lemma initialState_result (url : jsstring) :
  result (initialState url) = reportHeader url.
Proof.
  unfold initialState, reportHeader, linesText, headerLine.
  cbn [result map List.concat]. now rewrite app_nil_r, <- !app_assoc.
Qed.

(** X8.  Whatever events a page delivers, every text it prints begins with
    the header line of its URL, and every later text is an earlier one
    with more text after it: nothing once printed is dropped or changed. *)
Theorem emitted_texts_extend (url : jsstring) (evs : list PageEvent) :
  let texts := console (snd (run evs (initialState url))) in
  (forall t, In t texts ->
             exists rest, t = reportHeader url ++ rest /\ rest <> [])
  /\ (forall i j, (i < j < List.length texts)%nat ->
                  exists more, nth j texts [] = nth i texts [] ++ more /\ more <> []).
Proof.
  cbv zeta.
  destruct (run_accumulates (reportHeader url) evs (initialState url) [])
    as (bs & Hcon & Hne & _).
  { cbn [List.concat]. now rewrite app_nil_r, initialState_result. }
  { reflexivity. }
  { constructor. }
  cbn [app] in Hcon, Hne. rewrite Hcon. clear Hcon.
  assert (Hcat : forall l : list jsstring,
            Forall (fun b => b <> []) l -> l <> [] -> List.concat l <> []).
  { intros [|b l] Hl Hnil; [contradiction|]. inversion Hl; subst.
    cbn. destruct b; [contradiction | discriminate]. }
  split.
  - intros t Hin. apply In_nth with (d := []) in Hin as (k & Hk & <-).
    rewrite accumulated_length in Hk. rewrite accumulated_nth by exact Hk.
    eexists. split; [reflexivity|].
    apply Hcat; [now apply Forall_firstn_skipn|].
    destruct bs; [cbn in Hk; lia | discriminate].
  - intros i j Hij. rewrite accumulated_length in Hij.
    rewrite !accumulated_nth by lia.
    exists (List.concat (firstn (j - i) (skipn (S i) bs))). split.
    + rewrite <- app_assoc, <- concat_app. do 2 f_equal.
      replace (S j) with (S i + (j - i))%nat by lia.
      now rewrite firstn_plus.
    + apply Hcat.
      * apply Forall_firstn_skipn. now apply (Forall_firstn_skipn _ (S i) bs).
      * intros E. apply (f_equal (@List.length _)) in E.
        rewrite length_firstn, length_skipn in E. cbn in E. lia.
Qed.

(** X9.  On a page whose handlers do not raise, every notification prints
    one text: the console holds as many texts as there were
    notifications. *)
Theorem one_text_per_notification (url : jsstring) (evs : list PageEvent) :
  fst (run evs (initialState url)) = Normal tt ->
  List.length (console (snd (run evs (initialState url))))
  = List.length (filter isNotification evs).
Proof.
  intros Hok.
  destruct (run_accumulates (reportHeader url) evs (initialState url) [])
    as (bs & Hcon & _ & Hlen).
  { cbn [List.concat]. now rewrite app_nil_r, initialState_result. }
  { reflexivity. }
  { constructor. }
  rewrite Hcon, accumulated_length. cbn [app]. now apply Hlen.
Qed.

Lemma one_text_per_notification_witness :
  List.length
    (console (snd (run [Response (Some (lit "nginx"));
                        SecurityStateChanged plainRecord;
                        Response None;
                        SecurityStateChanged sampleRecord]
                     (initialState sampleUrl))))
  = 2%nat.
Proof.
  rewrite (one_text_per_notification sampleUrl
             [Response (Some (lit "nginx")); SecurityStateChanged plainRecord;
              Response None; SecurityStateChanged sampleRecord]);
    [reflexivity | vm_compute; reflexivity].
Defined.

(** X10.  The handler of a notification raises exactly when [classify]
    raises, or the record classifies and has no overall state, which is a
    [TypeError]; when it raises it has printed nothing and written
    nothing to the log. *)
Theorem handler_throws_iff (e : CDP.VisibleSecurityState) (st : PageState)
    (x : Exception) :
  (fst (onVisibleSecurityStateChanged e st) = Throw x
   <-> classify e = Throw x
       \/ (x = TypeError /\ CDP.securityState e = None
           /\ exists c, classify e = Normal c))
  /\ (fst (onVisibleSecurityStateChanged e st) = Throw x ->
      console (snd (onVisibleSecurityStateChanged e st)) = console st
      /\ logFile (snd (onVisibleSecurityStateChanged e st)) = logFile st).
Proof.
  destruct (handler_cases e st)
    as [(y & Hc & ->) | [(c & Hc & Hs & ->) | (c & s & Hc & Hs & ->)]];
    cbn [fst snd console logFile].
  - split; [|now intros _]. split.
    + intros H. injection H as <-. now left.
    + intros [H | (_ & _ & c & H)]; congruence.
  - split; [|now intros _]. split.
    + intros H. injection H as <-. right. eauto.
    + intros [H | (-> & _)]; [congruence | reflexivity].
  - split; [|discriminate]. split; [discriminate|].
    intros [H | (_ & H & _)]; congruence.
Qed.

Lemma last_cons_default {A : Type} (a d : A) (l : list A) :
  last (a :: l) d = last l a.
Proof.
  revert a d. induction l as [|b l IH]; intros a d; [reflexivity|].
  change (last (a :: b :: l) d) with (last (b :: l) d).
  now rewrite (IH b d), (IH b a).
Qed.

Lemma run_cons (ev : PageEvent) (evs : list PageEvent) (st : PageState) :
  run (ev :: evs) st =
    match dispatch ev st with
    | (Normal _, st') => run evs st'
    | (Throw x, st') => (Throw x, st')
    end.
Proof. reflexivity. Qed.

(** Responses only set the server header: to the last header that is
    present and not empty. *)
Lemma run_responses (hs : list (option jsstring)) :
  forall st : PageState,
    run (map Response hs) st =
      (Normal tt,
       {| result := result st;
          serverHeader :=
            last (filter (fun h => negb (str_eqb h []))
                    (flat_map (fun h => match h with Some s => [s] | None => [] end) hs))
                 (serverHeader st);
          console := console st;
          logFile := logFile st |}).
Proof.
  induction hs as [|h hs IH]; intros st.
  - now destruct st.
  - cbn [map run dispatch]. unfold mbind. rewrite onResponse_state, IH.
    cbn [result serverHeader console logFile]. do 2 f_equal.
    destruct h as [[|x s]|]; cbn [flat_map app filter str_eqb negb or_default];
      try reflexivity.
    now rewrite last_cons_default.
Qed.

(** X11.  The server shown in a report is the last [server] header that
    was present and not empty among the responses seen before the
    notification, "N/A" when there was none; headers of responses that
    arrive after the notification do not reach the text. *)
Theorem report_shows_server_seen_before (url : jsstring)
    (before after : list (option jsstring))
    (e : CDP.VisibleSecurityState) (c : Classification) (s : jsstring) :
  classify e = Normal c ->
  CDP.securityState e = Some s ->
  let evs := map Response before ++ [SecurityStateChanged e] ++ map Response after in
  fst (run evs (initialState url)) = Normal tt
  /\ console (snd (run evs (initialState url)))
     = [reportText url (toUpperCase s) (observedServer before) c].
Proof.
  intros Hc Hs evs. subst evs.
  rewrite run_app, run_responses. cbv beta iota.
  cbn [app]. rewrite run_cons. cbn [dispatch].
  rewrite (handler_Normal e c s _ Hc Hs). cbv beta iota zeta.
  rewrite run_responses.
  cbn [fst snd result serverHeader console logFile app].
  split; [reflexivity|]. f_equal.
  rewrite initialState_result. unfold reportText, reportHeader, reportBlock, linesText.
  cbn [map List.concat]. rewrite app_nil_r, <- !app_assoc. reflexivity.
Qed.

Lemma report_shows_server_seen_before_witness :
  console (snd (run (map Response [Some (lit "nginx"); None; Some []]
                     ++ [SecurityStateChanged sampleRecord]
                     ++ map Response [Some (lit "cloudflare")])
                  (initialState sampleUrl)))
  = [reportText sampleUrl (lit "SECURE") (lit "nginx") sampleClassification].
Proof.
  assert (Hc : classify sampleRecord = Normal sampleClassification)
    by (vm_compute; reflexivity).
  assert (Hs : CDP.securityState sampleRecord = Some (lit "secure")) by reflexivity.
  destruct (report_shows_server_seen_before sampleUrl
              [Some (lit "nginx"); None; Some []] [Some (lit "cloudflare")]
              sampleRecord sampleClassification (lit "secure") Hc Hs) as [_ H].
  rewrite H. reflexivity.
Defined.

(** X12.  A notification without an overall state ends in a [TypeError]
    and prints nothing, but the separator it had already appended stays in
    [result]: the next report of the page carries it in front of its own
    block. *)
Theorem stateless_notification_leaves_separator
    (e0 e : CDP.VisibleSecurityState) (c0 c : Classification) (s : jsstring)
    (st : PageState) :
  classify e0 = Normal c0 ->
  CDP.securityState e0 = None ->
  classify e = Normal c ->
  CDP.securityState e = Some s ->
  let st1 := snd (onVisibleSecurityStateChanged e0 st) in
  fst (onVisibleSecurityStateChanged e0 st) = Throw TypeError
  /\ console st1 = console st
  /\ logFile st1 = logFile st
  /\ console (snd (onVisibleSecurityStateChanged e st1))
     = console st
       ++ [result st ++ separator
           ++ reportBlock (toUpperCase s) (serverHeader st) c].
Proof.
  intros Hc0 Hs0 Hc Hs st1. subst st1.
  rewrite (handler_no_state e0 c0 st Hc0 Hs0). cbn [fst snd console logFile].
  repeat split.
  rewrite (handler_Normal e c s _ Hc Hs). cbv zeta.
  cbn [snd result serverHeader console]. now rewrite <- app_assoc.
Qed.

Lemma stateless_notification_leaves_separator_witness :
  fst (onVisibleSecurityStateChanged statelessRecord (initialState sampleUrl))
  = Throw TypeError.
Proof.
  assert (Hc0 : exists c0, classify statelessRecord = Normal c0) by (eexists; reflexivity).
  destruct Hc0 as [c0 Hc0].
  assert (Hc : classify sampleRecord = Normal sampleClassification)
    by (vm_compute; reflexivity).
  apply (stateless_notification_leaves_separator statelessRecord sampleRecord
           c0 sampleClassification (lit "secure") (initialState sampleUrl)
           Hc0 eq_refl Hc eq_refl).
Defined.

End HandlersMore.

(* ================================================================== *)
(** ** Further properties of [main] *)
(* ================================================================== *)

Section MainMore.

Lemma nonBlank_false_iff (line : jsstring) :
  nonBlank line = false <-> forallb isWhiteSpace line = true.
Proof.
  unfold nonBlank. rewrite negb_false_iff, str_eqb_nil. apply trim_nil_iff.
Qed.

Lemma filter_nil_iff {A : Type} (f : A -> bool) (l : list A) :
  filter f l = [] <-> forall x, In x l -> f x = false.
Proof.
  induction l as [|a l IH]; cbn; [tauto|].
  destruct (f a) eqn:E; split.
  - discriminate.
  - intros H. rewrite (H a) in E by now left. discriminate.
  - intros H x [<- | Hx]; [exact E | now apply IH].
  - intros H. apply IH. intros x Hx. apply H. now right.
Qed.

(** X13.  [main] prints the usage message and exits with code 1 exactly
    when there is no argument, or the single argument names a file all of
    whose lines are empty or white space; otherwise the list of URLs that
    it goes on to check is never empty. *)
Theorem main_usage_iff (maxArguments : nat) (args : list jsstring) (fs : FileSystem) :
  (forall message code,
      main maxArguments args fs = Normal (UsageExit message code)
      <-> message = usage /\ code = 1%Z
          /\ (args = []
              \/ exists path content,
                   args = [path] /\ fs path = File content
                   /\ forall line, In line (split_lines content) ->
                                   forallb isWhiteSpace line = true))
  /\ (forall urls, main maxArguments args fs = Normal (CheckSites urls) -> urls <> []).
Proof.
  assert (Hmain : forall urls, resolveUrls maxArguments args fs = Normal urls ->
            main maxArguments args fs = match urls with
                                        | [] => Normal (UsageExit usage 1)
                                        | _ => Normal (CheckSites urls)
                                        end).
  { intros urls H. unfold main. rewrite H. cbn [bind]. now destruct urls. }
  split.
  - intros message code. split.
    + intros H.
      destruct (resolveUrls maxArguments args fs) as [urls|x] eqn:Hres;
        [|unfold main in H; rewrite Hres in H; discriminate H].
      rewrite (Hmain urls eq_refl) in H.
      destruct urls as [|u urls]; [|discriminate H].
      injection H as <- <-. split; [reflexivity|]. split; [reflexivity|].
      destruct args as [|a [|b args]].
      * now left.
      * right. destruct (fs a) as [|content|] eqn:Hfs.
        -- unfold resolveUrls, existsSync in Hres.
           cbn [List.length Nat.eqb andb nth] in Hres. rewrite Hfs in Hres.
           discriminate Hres.
        -- exists a, content. repeat split; [exact Hfs|].
           rewrite (resolveUrls_file maxArguments a content fs Hfs) in Hres.
           destruct (pushSpread_cases maxArguments []
                       (filter nonBlank (split_lines content)))
             as [[_ H] | [_ H]]; rewrite H in Hres; [|discriminate Hres].
           injection Hres as Hres. cbn [app] in Hres.
           intros line Hin. apply nonBlank_false_iff.
           now apply (proj1 (filter_nil_iff nonBlank _) Hres).
        -- unfold resolveUrls, existsSync, readFileSync in Hres.
           cbn [List.length Nat.eqb andb nth] in Hres. rewrite Hfs in Hres.
           discriminate Hres.
      * discriminate Hres.
    + intros (-> & -> & [-> | (path & content & -> & Hfs & Hblank)]).
      * reflexivity.
      * rewrite (Hmain []); [reflexivity|].
        rewrite (resolveUrls_file maxArguments path content fs Hfs).
        assert (E : filter nonBlank (split_lines content) = []).
        { apply filter_nil_iff. intros line Hin. apply nonBlank_false_iff.
          now apply Hblank. }
        rewrite E. reflexivity.
  - intros urls H.
    destruct (resolveUrls maxArguments args fs) as [urls'|x] eqn:Hres;
      [|unfold main in H; rewrite Hres in H; discriminate H].
    rewrite (Hmain urls' eq_refl) in H.
    destruct urls'; [discriminate H|]. injection H as <-. discriminate.
Qed.

(** X14.  [main] itself raises in two cases only, both with a single
    argument that names something that exists: a [SystemError] when it
    cannot be read as a file, as for a directory, and a [RangeError] when
    it is a file with more non-blank lines than a call can take
    arguments. *)
Theorem main_throws_iff (maxArguments : nat) (args : list jsstring)
    (fs : FileSystem) (x : Exception) :
  main maxArguments args fs = Throw x
  <-> (x = SystemError /\ exists path, args = [path] /\ fs path = Directory)
      \/ (x = RangeError
          /\ exists path content,
               args = [path] /\ fs path = File content
               /\ (maxArguments
                   < List.length (filter nonBlank (split_lines content)))%nat).
Proof.
  destruct args as [|a [|b args]].
  - split; [discriminate|].
    intros [(_ & path & E & _) | (_ & path & content & E & _)]; discriminate E.
  - destruct (fs a) as [|content|] eqn:Hfs.
    + assert (H : main maxArguments [a] fs = Normal (CheckSites [a])).
      { unfold main, resolveUrls, existsSync.
        cbn [List.length Nat.eqb andb nth]. now rewrite Hfs. }
      rewrite H. split; [discriminate|].
      intros [(_ & path & E & Hd) | (_ & path & c & E & Hf & _)];
        injection E as <-; congruence.
    + unfold main. rewrite (resolveUrls_file maxArguments a content fs Hfs).
      destruct (pushSpread_cases maxArguments []
                  (filter nonBlank (split_lines content)))
        as [[Hle H] | [Hlt H]]; rewrite H; cbn [bind].
      * split.
        -- destruct (List.length _ =? 0)%nat; discriminate.
        -- intros [(_ & path & E & Hd) | (_ & path & c & E & Hf & Hlt)];
             injection E as <-; [congruence|].
           rewrite Hfs in Hf. injection Hf as <-. lia.
      * split.
        -- intros E. injection E as <-. right. split; [reflexivity|].
           now exists a, content.
        -- intros [(_ & path & E & Hd) | (-> & _)]; [|reflexivity].
           injection E as <-. congruence.
    + assert (H : main maxArguments [a] fs = Throw SystemError).
      { unfold main, resolveUrls, existsSync, readFileSync.
        cbn [List.length Nat.eqb andb nth]. now rewrite Hfs. }
      rewrite H. split.
      * intros E. injection E as <-. left. split; [reflexivity|]. now exists a.
      * intros [(-> & _) | (_ & path & c & E & Hf & _)]; [reflexivity|].
        injection E as <-. congruence.
  - split; [discriminate|].
    intros [(_ & path & E & _) | (_ & path & content & E & _)]; discriminate E.
Qed.

(** Lines ended by a line feed each, read as lines. *)
Lemma Lines_urlsFileOf (urls : list jsstring) :
  Forall (fun u => ~ In 10%N u /\ forall l', u <> l' ++ [13%N]) urls ->
  Lines (urlsFileOf urls) (urls ++ [[]]).
Proof.
  induction 1 as [|u urls [Hlf Hcr] _ IH]; cbn.
  - apply Lines_last. auto.
  - unfold urlsFileOf. cbn [map List.concat]. rewrite <- app_assoc.
    now apply Lines_lf.
Qed.

(** X15.  Writing URLs to a file, one per line and each followed by a
    line feed, and giving the file to [main] makes it check exactly these
    URLs in this order, provided that they are no more than a call can
    take arguments and that each URL holds something other than white
    space, holds no line feed and does not end in a carriage return. *)
Theorem urls_file_round_trip (maxArguments : nat) (path : jsstring)
    (urls : list jsstring) (fs : FileSystem) :
  urls <> [] ->
  (List.length urls <= maxArguments)%nat ->
  Forall (fun u => nonBlank u = true /\ ~ In 10%N u
                   /\ forall l', u <> l' ++ [13%N]) urls ->
  fs path = File (urlsFileOf urls) ->
  split_lines (urlsFileOf urls) = urls ++ [[]]
  /\ main maxArguments [path] fs = Normal (CheckSites urls).
Proof.
  intros Hne Hlen Hall Hfs.
  assert (Hsplit : split_lines (urlsFileOf urls) = urls ++ [[]]).
  { apply (Lines_functional (urlsFileOf urls)); [apply split_lines_Lines|].
    apply Lines_urlsFileOf. eapply Forall_impl; [|exact Hall]. cbn. tauto. }
  split; [exact Hsplit|].
  assert (Hfilter : filter nonBlank (split_lines (urlsFileOf urls)) = urls).
  { rewrite Hsplit, filter_app. cbn [filter]. change (nonBlank []) with false.
    cbn iota. rewrite app_nil_r.
    clear -Hall. induction Hall as [|u urls (Hu & _) _ IH]; [reflexivity|].
    cbn [filter]. now rewrite Hu, IH. }
  assert (Hres : resolveUrls maxArguments [path] fs = Normal urls).
  { rewrite (resolveUrls_file maxArguments path (urlsFileOf urls) fs Hfs), Hfilter.
    destruct (pushSpread_cases maxArguments [] urls) as [[_ H] | [Hlt _]];
      [exact H | lia]. }
  unfold main. rewrite Hres. cbn [bind]. destruct urls; [contradiction | reflexivity].
Qed.

Lemma urls_file_round_trip_witness :
  main sampleLimit [lit "list.txt"]
       (fun p => File (urlsFileOf [lit "https://a.example"; lit " https://b.example "]))
  = Normal (CheckSites [lit "https://a.example"; lit " https://b.example "]).
Proof.
  apply (urls_file_round_trip sampleLimit (lit "list.txt")
           [lit "https://a.example"; lit " https://b.example "]
           (fun p => File (urlsFileOf [lit "https://a.example"; lit " https://b.example "]))).
  - discriminate.
  - apply Nat.leb_le. vm_compute. reflexivity.
  - repeat constructor; try (vm_compute; reflexivity);
      try (intros H; vm_compute in H; intuition discriminate);
      intros l' E; apply (f_equal (@rev N)) in E; rewrite rev_app_distr in E;
      vm_compute in E; discriminate E.
  - reflexivity.
Defined.

End MainMore.

(* ================================================================== *)
(** ** [checkTLS] and the loop of [main] *)
(* ================================================================== *)

Import Driver.

Section DriverFacts.

(** X16.  The message reported for a failed URL never holds the error code
    "net::ERR_HTTP2_PROTOCOL_ERROR": an error message that holds it is
    replaced by the fixed advice, and every other message is reported
    as it is. *)
Theorem errorMessage_hides_http2_code (message : jsstring) :
  (substring http2Marker message -> errorMessage message = http2Advice)
  /\ (~ substring http2Marker message -> errorMessage message = message)
  /\ ~ substring http2Marker (errorMessage message).
Proof.
  unfold errorMessage. destruct (includes message http2Marker) eqn:E.
  - apply includes_true_iff in E as E'. repeat split; try tauto.
    apply includes_false_iff. vm_compute. reflexivity.
  - apply includes_false_iff in E as E'. repeat split; tauto.
Qed.

(** Quiet events are handled to the end. *)
Lemma run_quiet (evs : list PageEvent) :
  quietEvents evs -> forall st, fst (run evs st) = Normal tt.
Proof.
  induction evs as [|ev evs IH]; intros Hq st; [reflexivity|].
  rewrite run_cons.
  assert (Hq' : quietEvents evs) by (intros e He; apply Hq; now right).
  destruct ev as [e|server]; cbn [dispatch].
  - destruct (Hq e) as (c & s & Hc & Hs); [now left|].
    rewrite (handler_Normal e c s st Hc Hs). cbv zeta. now apply IH.
  - rewrite onResponse_state. now apply IH.
Qed.

(** The handlers only add to the console and to the log. *)
Lemma run_appends (evs : list PageEvent) :
  forall st, exists new,
    console (snd (run evs st)) = console st ++ new
    /\ logFile (snd (run evs st)) = logFile st ++ map (fun t => t ++ nl) new.
Proof.
  induction evs as [|ev evs IH]; intros st.
  - exists []. cbn. now rewrite !app_nil_r.
  - rewrite run_cons. destruct ev as [e|server]; cbn [dispatch].
    + destruct (handler_cases e st)
        as [(x & _ & ->) | [(c & _ & _ & ->) | (c & s & _ & _ & ->)]].
      * exists []. cbn. now rewrite !app_nil_r.
      * exists []. cbn. now rewrite !app_nil_r.
      * set (t := result st ++ reportBlock (toUpperCase s) (serverHeader st) c).
        match goal with
        | |- context [run evs ?st1] => destruct (IH st1) as (new & Hc & Hl)
        end.
        cbn [console logFile] in Hc, Hl.
        exists (t :: new). rewrite Hc, Hl. cbn [map].
        now rewrite <- (app_assoc (console st) [t] new),
          <- (app_assoc (logFile st) [t ++ nl] (map (fun t0 => t0 ++ nl) new)).
    + rewrite onResponse_state.
      match goal with
      | |- context [run evs ?st1] => destruct (IH st1) as (new & Hc & Hl)
      end.
      exists new. now rewrite Hc, Hl.
Qed.

(** What an orderly session leaves behind. *)
Lemma checkTLS_orderly (url : jsstring) (s : Session) (p : Process) :
  orderly s ->
  exists p',
    checkTLS url s p = (Fulfilled, p')
    /\ launched p' = S (launched p)
    /\ closed p' = S (closed p)
    /\ logEnded p' = logEnded p
    /\ stderr p' = stderr p
                   ++ match sessionError s with
                      | Some message => [errorArguments url message]
                      | None => []
                      end
    /\ (exists out, stdout p' = stdout p ++ out)
    /\ (exists chunks,
          logged p' = logged p ++ chunks
          /\ forall message, sessionError s = Some message ->
                             In (errorLine url message) chunks).
Proof.
  intros (Hl & Hc & Ht). unfold checkTLS, sessionError. rewrite Hl, Hc.
  destruct (tried s) as [message | events error closing].
  - eexists. split; [reflexivity|]. cbn.
    repeat split; try reflexivity.
    + exists []. now rewrite app_nil_r.
    + eexists. split; [reflexivity|]. intros m E. injection E as <-. now left.
  - destruct Ht as [Hq Hq'].
    set (p1 := {| stdout := stdout p; stderr := stderr p; logged := logged p;
                  logEnded := logEnded p; launched := S (launched p);
                  closed := closed p |}).
    set (st1 := pageState (result (initialState url))
                  (serverHeader (initialState url)) p1).
    pose proof (run_quiet events Hq st1) as Hok.
    destruct (run_appends events st1) as (new & Hcon & Hlog).
    destruct (run events st1) as [[[]|x] st] eqn:Hrun; [|discriminate Hok].
    cbn [snd] in Hcon, Hlog. cbv zeta.
    set (p2 := match error with
               | Some message => reportError url message (withPage st p1)
               | None => withPage st p1
               end).
    set (st2 := pageState (result st) (serverHeader st) p2).
    pose proof (run_quiet closing Hq' st2) as Hok'.
    destruct (run_appends closing st2) as (new' & Hcon' & Hlog').
    destruct (run closing st2) as [[[]|x] st'] eqn:Hrun'; [|discriminate Hok'].
    cbn [snd] in Hcon', Hlog'.
    eexists. split; [reflexivity|].
    cbn [launched closed logEnded stderr stdout logged withPage].
    rewrite Hcon', Hlog'. subst st2. cbn [pageState console logFile].
    subst p2. destruct error as [message|];
      cbn [reportError withPage stdout stderr logged logEnded launched closed];
      rewrite Hcon, Hlog; subst st1 p1;
      cbn [pageState console logFile stdout stderr logged logEnded launched closed].
    + repeat split; try reflexivity.
      * exists (new ++ new'). now rewrite app_assoc.
      * eexists. split; [rewrite <- !app_assoc; reflexivity|].
        intros m E. injection E as <-.
        apply in_or_app. right. now left.
    + rewrite app_nil_r. repeat split; try reflexivity.
      * exists (new ++ new'). now rewrite app_assoc.
      * eexists. split; [rewrite <- !app_assoc; reflexivity|]. discriminate.
Qed.

(** X17.  When a page fails to load, [checkTLS] reports it once, with the
    same message on the error console and in a line of the log, still
    closes the browser, and its promise is fulfilled, not rejected. *)
Theorem failed_page_is_reported_once (url message : jsstring) (s : Session)
    (p : Process) :
  orderly s ->
  sessionError s = Some message ->
  exists p',
    checkTLS url s p = (Fulfilled, p')
    /\ stderr p' = stderr p ++ [errorArguments url message]
    /\ (exists chunks, logged p' = logged p ++ chunks
                       /\ In (errorLine url message) chunks)
    /\ launched p' = S (launched p)
    /\ closed p' = S (closed p).
Proof.
  intros Ho He.
  destruct (checkTLS_orderly url s p Ho)
    as (p' & Hrun & Hl & Hc & _ & Herr & _ & chunks & Hlog & Hin).
  exists p'. rewrite He in Herr. repeat split; try assumption.
  exists chunks. split; [exact Hlog | now apply Hin].
Qed.

Lemma failed_page_is_reported_once_witness :
  exists p',
    checkTLS (lit "https://down.example")
      (sampleBrowser 0 (lit "https://down.example")) start = (Fulfilled, p')
    /\ stderr p' = stderr start
                   ++ [errorArguments (lit "https://down.example")
                         (lit "net::ERR_NAME_NOT_RESOLVED")]
    /\ (exists chunks, logged p' = logged start ++ chunks
                       /\ In (errorLine (lit "https://down.example")
                                (lit "net::ERR_NAME_NOT_RESOLVED")) chunks)
    /\ launched p' = S (launched start)
    /\ closed p' = S (closed start).
Proof.
  apply (failed_page_is_reported_once (lit "https://down.example")
           (lit "net::ERR_NAME_NOT_RESOLVED")).
  - split; [reflexivity|]. split; [reflexivity|].
    change (tried (sampleBrowser 0 (lit "https://down.example")))
      with (Navigated [] (Some (lit "net::ERR_NAME_NOT_RESOLVED")) []).
    split; intros e0 [].
  - reflexivity.
Defined.

(** A batch of orderly sessions. *)
Lemma checkAll_orderly (browser : nat -> jsstring -> Session) (urls : list jsstring) :
  forall (k : nat) (p : Process),
    allOrderly k urls browser ->
    exists p',
      checkAll k urls browser p = (Fulfilled, p')
      /\ launched p' = (launched p + List.length urls)%nat
      /\ closed p' = (closed p + List.length urls)%nat
      /\ logEnded p' = logEnded p
      /\ stderr p' = stderr p ++ errorReports k urls browser
      /\ (exists out, stdout p' = stdout p ++ out).
Proof.
  induction urls as [|url urls IH]; intros k p Hall.
  - exists p. cbn. rewrite !Nat.add_0_r, app_nil_r. repeat split.
    exists []. now rewrite app_nil_r.
  - destruct Hall as [Ho Hall].
    destruct (checkTLS_orderly url (browser k url) p Ho)
      as (p1 & Hrun & Hl & Hc & He & Herr & (out & Hout) & _).
    destruct (IH (S k) p1 Hall) as (p' & Hrun' & Hl' & Hc' & He' & Herr' & (out' & Hout')).
    exists p'. cbn [checkAll errorReports List.length]. rewrite Hrun.
    repeat split.
    + exact Hrun'.
    + lia.
    + lia.
    + congruence.
    + now rewrite Herr', Herr, <- app_assoc.
    + exists (out ++ out'). now rewrite Hout', Hout, <- app_assoc.
Qed.

(** X18.  A page that fails does not stop the batch: when every browser
    launches and closes and no handler raises, [main] checks every URL,
    launches and closes one browser for each, reports each failed URL once
    and in the order of the URLs, ends the log stream and prints its
    closing message last. *)
Theorem batch_survives_page_failures (maxArguments : nat) (args : list jsstring)
    (fs : FileSystem) (browser : nat -> jsstring -> Session) (urls : list jsstring) :
  main maxArguments args fs = Normal (CheckSites urls) ->
  allOrderly 0 urls browser ->
  exists p,
    runMain maxArguments args fs browser = (Finished, p)
    /\ launched p = List.length urls
    /\ closed p = List.length urls
    /\ stderr p = errorReports 0 urls browser
    /\ logEnded p = true
    /\ hd [] (stdout p) = checking (List.length urls)
    /\ last (stdout p) [] = allSaved.
Proof.
  intros Hmain Hall. unfold runMain. rewrite Hmain.
  match goal with
  | |- context [checkAll 0 urls browser ?p0] =>
      destruct (checkAll_orderly browser urls 0 p0 Hall)
        as (p' & Hrun & Hl & Hc & _ & Herr & (out & Hout))
  end.
  cbv zeta. rewrite Hrun. eexists. split; [reflexivity|].
  cbn [launched closed stderr logEnded stdout] in *.
  rewrite Hl, Hc, Herr, Hout. repeat split.
  apply (last_last ([checking (List.length urls)] ++ out) allSaved []).
Qed.

Lemma batch_survives_page_failures_witness :
  exists p,
    runMain sampleLimit [lit "https://down.example"; lit "https://example.com"]
      (fun _ => Missing) sampleBrowser = (Finished, p)
    /\ launched p = 2%nat
    /\ closed p = 2%nat
    /\ stderr p = [errorArguments (lit "https://down.example")
                     (lit "net::ERR_NAME_NOT_RESOLVED")]
    /\ logEnded p = true.
Proof.
  destruct (batch_survives_page_failures sampleLimit
              [lit "https://down.example"; lit "https://example.com"]
              (fun _ => Missing) sampleBrowser
              [lit "https://down.example"; lit "https://example.com"])
    as (p & Hrun & Hl & Hc & Herr & He & _).
  - reflexivity.
  - assert (Hw : wellFormed sampleRecord).
    { exists sampleClassification, (lit "secure").
      split; [vm_compute; reflexivity | reflexivity]. }
    split; [|split; [|exact I]].
    + split; [reflexivity|]. split; [reflexivity|].
      change (tried (sampleBrowser 0 (lit "https://down.example")))
        with (Navigated [] (Some (lit "net::ERR_NAME_NOT_RESOLVED")) []).
      split; intros e0 [].
    + split; [reflexivity|]. split; [reflexivity|].
      change (tried (sampleBrowser 1 (lit "https://example.com")))
        with (Navigated [SecurityStateChanged sampleRecord;
                         Response (Some (lit "nginx"))] None []).
      split; [|intros e0 []].
      intros e0 [E | [E | []]]; [|discriminate E]. injection E as <-. exact Hw.
  - exists p. repeat split; assumption.
Defined.

(** X19.  A browser that cannot be launched ends the run: the promise of
    [main] is rejected with the launch error, the URLs after that one are
    not checked, and the log stream is never ended. *)
Theorem launch_failure_stops_batch (maxArguments : nat) (args : list jsstring)
    (fs : FileSystem) (browser : nat -> jsstring -> Session)
    (before after : list jsstring) (url message : jsstring) :
  main maxArguments args fs = Normal (CheckSites (before ++ url :: after)) ->
  allOrderly 0 before browser ->
  launchError (browser (List.length before) url) = Some message ->
  exists p,
    runMain maxArguments args fs browser = (Failed message, p)
    /\ launched p = List.length before
    /\ closed p = List.length before
    /\ logEnded p = false.
Proof.
  intros Hmain Hall Hfail. unfold runMain. rewrite Hmain.
  assert (G : forall urls k p, allOrderly k urls browser ->
            launchError (browser (k + List.length urls)%nat url) = Some message ->
            exists p',
              checkAll k (urls ++ url :: after) browser p = (Rejected message, p')
              /\ launched p' = (launched p + List.length urls)%nat
              /\ closed p' = (closed p + List.length urls)%nat
              /\ logEnded p' = logEnded p).
  { induction urls as [|u urls IH]; intros k p Ho Hf.
    - exists p. cbn [app checkAll]. unfold checkTLS.
      cbn [List.length] in Hf. rewrite Nat.add_0_r in Hf. rewrite Hf.
      cbn [List.length]. rewrite !Nat.add_0_r. repeat split.
    - destruct Ho as [Ho Hrest].
      destruct (checkTLS_orderly u (browser k u) p Ho)
        as (p1 & Hrun & Hl & Hc & He & _).
      destruct (IH (S k) p1 Hrest) as (p' & Hrun' & Hl' & Hc' & He').
      { cbn [List.length] in Hf. now rewrite Nat.add_succ_comm. }
      exists p'. cbn [app checkAll List.length]. rewrite Hrun.
      repeat split; [exact Hrun' | lia | lia | congruence]. }
  match goal with
  | |- context [checkAll 0 _ browser ?p0] =>
      destruct (G before 0%nat p0 Hall Hfail) as (p' & Hrun & Hl & Hc & He)
  end.
  cbv zeta. rewrite Hrun. exists p'. repeat split; assumption.
Qed.

Lemma launch_failure_stops_batch_witness :
  exists p,
    runMain sampleLimit
      [lit "https://a.example"; lit "https://b.example"; lit "https://c.example"]
      (fun _ => Missing) failingBrowser
    = (Failed (lit "Failed to launch the browser process"), p)
    /\ launched p = 1%nat
    /\ closed p = 1%nat
    /\ logEnded p = false.
Proof.
  apply (launch_failure_stops_batch sampleLimit
           [lit "https://a.example"; lit "https://b.example"; lit "https://c.example"]
           (fun _ => Missing) failingBrowser
           [lit "https://a.example"] [lit "https://c.example"]
           (lit "https://b.example") (lit "Failed to launch the browser process")).
  - reflexivity.
  - split; [|exact I]. split; [reflexivity|]. split; [reflexivity|].
    split; intros e0 [].
  - reflexivity.
Defined.

End DriverFacts.

(* ================================================================== *)
(** ** The earlier copy of the script *)
(* ================================================================== *)

Section EarlierCopy.

Lemma earlier_appended_block (r state : jsstring) (c : Classification) :
  (((((((((((r ++ separator)
      ++ lock ++ lit " Security State: " ++ state ++ nl)
      ++ globe ++ lit " Transport Protocol: " ++ transportLabel c ++ nl)
      ++ key ++ lit " Key Exchange: " ++ keyExchange c ++ nl)
      ++ arrows ++ lit " Key Exchange Group: " ++ keyExchangeGroup c ++ nl)
      ++ lockKey ++ lit " Cipher Suite: " ++ cipher c ++ nl)
      ++ scroll ++ lit " Certificate Subject: " ++ subjectName c ++ nl)
      ++ building ++ lit " Issuer: " ++ issuer c ++ nl)
      ++ calendar ++ lit " Valid From: " ++ validFrom c ++ nl)
      ++ calendar ++ lit " Valid To: " ++ validTo c ++ nl)
      ++ separator)
      ++ (if pqcDetected c
          then checkMark ++ lit " This site is using Post-Quantum Encryption (PQC)! "
               ++ popper ++ nl
          else crossMark ++ lit " This site is NOT using Post-Quantum Encryption." ++ nl)
  = r ++ earlierBlock state c.
Proof.
  unfold earlierBlock, linesText, blockLines, verdictLine, separator, separatorLine.
  cbn [firstn skipn app map List.concat]. destruct (pqcDetected c);
    rewrite <- ?app_assoc, ?app_nil_r; reflexivity.
Qed.

(** X20.  For a record that classifies and has an overall state, the
    handler of the earlier copy of the script prints what the current
    handler prints with the server line taken out: the same lines, from
    the same classification, in the same order. *)
Theorem earlier_report_lacks_server_line (e : CDP.VisibleSecurityState)
    (c : Classification) (s : jsstring) (st : PageState) :
  classify e = Normal c ->
  CDP.securityState e = Some s ->
  let ls := blockLines (toUpperCase s) (serverHeader st) c in
  console (snd (CheckPQC.onVisibleSecurityStateChanged e st))
    = console st ++ [result st ++ linesText ls]
  /\ Earlier.onVisibleSecurityStateChanged e st =
       (Normal tt,
        {| result := result st ++ linesText (firstn 2 ls ++ skipn 3 ls);
           serverHeader := serverHeader st;
           console := console st ++ [result st ++ linesText (firstn 2 ls ++ skipn 3 ls)];
           logFile := logFile st
                      ++ [(result st ++ linesText (firstn 2 ls ++ skipn 3 ls)) ++ nl] |}).
Proof.
  intros Hc Hs ls. split.
  - now rewrite (handler_Normal e c s st Hc Hs).
  - destruct st as [r h co lf].
    unfold Earlier.onVisibleSecurityStateChanged. rewrite Hc, Hs.
    cbn [result serverHeader console logFile].
    change (linesText (firstn 2 ls ++ skipn 3 ls))
      with (earlierBlock (toUpperCase s) c).
    rewrite <- (earlier_appended_block r (toUpperCase s) c).
    reflexivity.
Qed.

Lemma earlier_report_lacks_server_line_witness :
  console (snd (Earlier.onVisibleSecurityStateChanged sampleRecord
                  (initialState sampleUrl)))
  = [result (initialState sampleUrl)
     ++ linesText
          (firstn 2 (blockLines (lit "SECURE") (lit "N/A") sampleClassification)
           ++ skipn 3 (blockLines (lit "SECURE") (lit "N/A") sampleClassification))].
Proof.
  assert (Hc : classify sampleRecord = Normal sampleClassification)
    by (vm_compute; reflexivity).
  destruct (earlier_report_lacks_server_line sampleRecord sampleClassification
              (lit "secure") (initialState sampleUrl) Hc eq_refl) as [_ H].
  rewrite H. reflexivity.
Defined.

End EarlierCopy.
